(** * pynab: grouping parts into binaries (pynab/binaries.py)

    A shallow embedding of [save] and [process] from [pynab/binaries.py],
    together with the Python string primitives they rely on, and the
    properties of the classifier, the aggregator and the committer.

    Conventions.
    - Text is a Rocq [string]; a character is a code point below 256.
    - A Python [dict] is a [gmap]: the source never relies on the order in
      which a dict is iterated.
    - A naive [datetime] is an integer count of microseconds; a [timedelta]
      is the difference of two of them.
    - An uncaught Python exception is the [Raise] result of the [result]
      type; [continue] and [break] are the [Next] and [Break] constructors
      of [flow]. *)

From Stdlib Require Import ZArith Lia Ascii String.
From stdpp Require Import base tactics option list numbers strings gmap fin_maps sorting pretty.

Local Open Scope string_scope.
Local Open Scope list_scope.
Local Open Scope Z_scope.

(** ** Python strings *)

Module Py.

(** [str.isspace] on one character: the code points below 256 that Python
  treats as white space. *)
Definition is_space (c : ascii) : bool :=
let n := N_of_ascii c in
((9 <=? n) && (n <=? 13) || (28 <=? n) && (n <=? 32)
 || (n =? 133) || (n =? 160))%N.

(** [c in "0123456789"]. *)
Definition is_digit (c : ascii) : bool :=
let n := N_of_ascii c in ((48 <=? n) && (n <=? 57))%N.

Definition len (s : string) : Z := Z.of_nat (String.length s).

(** [s.find(c)] for a one-character [c]: first index, or -1. *)
Fixpoint find_from (c : ascii) (s : string) (i : Z) : Z :=
match s with
| EmptyString => -1
| String a s' => if Ascii.eqb a c then i else find_from c s' (i + 1)
end.
Definition find (s : string) (c : ascii) : Z := find_from c s 0.

(** [s.rfind(c)] for a one-character [c]: last index, or -1. *)
Fixpoint rfind_from (c : ascii) (s : string) (i last : Z) : Z :=
match s with
| EmptyString => last
| String a s' => rfind_from c s' (i + 1) (if Ascii.eqb a c then i else last)
end.
Definition rfind (s : string) (c : ascii) : Z := rfind_from c s 0 (-1).

(** [c in s] for a one-character [c]. *)
Definition contains (s : string) (c : ascii) : bool := negb (find s c =? -1).

(** Slice bounds: a negative index counts from the end, and both ends are
  clamped to the string. *)
Definition clamp (n i : Z) : Z :=
if i <? 0 then Z.max (i + n) 0 else Z.min i n.

(** [s[lo:hi]]. *)
Definition slice (s : string) (lo hi : Z) : string :=
let n := len s in
let lo' := clamp n lo in
let hi' := clamp n hi in
substring (Z.to_nat lo') (Z.to_nat (hi' - lo')) s.

(** [s[lo:]]. *)
Definition slice_from (s : string) (lo : Z) : string := slice s lo (len s).

(** [s.lstrip()], [s.rstrip()], [s.strip()]. *)
Fixpoint lstrip (s : string) : string :=
match s with
| EmptyString => EmptyString
| String a s' => if is_space a then lstrip s' else s
end.

Fixpoint rstrip (s : string) : string :=
match s with
| EmptyString => EmptyString
| String a s' =>
    match rstrip s' with
    | EmptyString => if is_space a then EmptyString else String a EmptyString
    | t => String a t
    end
end.

Definition strip (s : string) : string := rstrip (lstrip s).

(** [s.startswith(p)]. *)
Fixpoint startswith (p s : string) : bool :=
match p, s with
| EmptyString, _ => true
| String a p', String b s' => Ascii.eqb a b && startswith p' s'
| String _ _, EmptyString => false
end.

(** [s.replace(old, new)] for a non-empty [old]: the occurrences of [old]
  are replaced from left to right, without overlap.  [skip] counts the
  characters of an occurrence that are still to be dropped. *)
Fixpoint replace_go (old new : string) (skip : nat) (s : string) : string :=
match s with
| EmptyString => EmptyString
| String a s' =>
    match skip with
    | S k => replace_go old new k s'
    | O =>
        if startswith old s
        then new +:+ replace_go old new (String.length old - 1) s'
        else String a (replace_go old new O s')
    end
end.
Definition replace (s old new : string) : string := replace_go old new O s.

(** [s.split(c)] for a one-character separator: never empty. *)
Fixpoint split (s : string) (c : ascii) : list string :=
match s with
| EmptyString => [EmptyString]
| String a s' =>
    if Ascii.eqb a c then EmptyString :: split s' c
    else match split s' c with
         | w :: ws => String a w :: ws
         | [] => [String a EmptyString]
         end
end.

(** [int(s)] in base ten: surrounding white space is dropped, one sign is
  allowed, and the digits may be grouped by single underscores. [None]
  stands for [ValueError]. *)
Definition digit_val (c : ascii) : Z := Z.of_N (N_of_ascii c) - 48.

Fixpoint digits_go (s : string) (acc : Z) (after_digit : bool) : option Z :=
match s with
| EmptyString => if after_digit then Some acc else None
| String a s' =>
    if is_digit a then digits_go s' (10 * acc + digit_val a) true
    else if Ascii.eqb a "_" && after_digit then
      match s' with
      | String b _ => if is_digit b then digits_go s' acc false else None
      | EmptyString => None
      end
    else None
end.

Definition int (s : string) : option Z :=
match strip s with
| String "-" t => Z.opp <$> digits_go t 0 false
| String "+" t => digits_go t 0 false
| t => digits_go t 0 false
end.

End Py.

(** ** Data model: the records of [pynab.db] as the source reads them *)

Module Part.
Record t := mk {
  id : Z;
  group_name : string;
  subject : string;
  posted : Z;
  posted_by : string;
  xref : string;
  binary_id : option Z
}.
End Part.

Module Regex.
Record t := mk {
  id : Z;
  group_name : string;
  regex : string;
  ordinal : Z
}.
End Regex.

(** The dict [b] built at lines 157-166: a binary with the parts attached
    to it so far, keyed by their index in the binary. *)
Module Binary.
Record t := mk {
  name : string;
  posted : Z;
  posted_by : string;
  group_name : string;
  xref : string;
  regex_id : Z;
  total_parts : Z;
  parts : gmap string Part.t
}.

(** [b['parts'][current] = part] *)
Definition attach (current : string) (part : Part.t) (b : t) : t :=
  mk (name b) (posted b) (posted_by b) (group_name b) (xref b) (regex_id b)
     (total_parts b) (<[current := part]> (parts b)).
End Binary.

(** A row of the binaries table: the columns of [Binary] and its key. *)
Module BinaryRow.
Record t := mk {
  id : Z;
  name : string;
  posted : Z;
  posted_by : string;
  group_name : string;
  xref : string;
  regex_id : Z;
  total_parts : Z
}.

Definition of_binary (i : Z) (b : Binary.t) : t :=
  mk i (Binary.name b) (Binary.posted b) (Binary.posted_by b)
     (Binary.group_name b) (Binary.xref b) (Binary.regex_id b)
     (Binary.total_parts b).
End BinaryRow.

(** ** Exceptions and loop control *)

(** The exceptions that leave [process]: AttributeError of line 96,
    ValueError of lines 150 and 164, and [QueryError] for what line 105
    raises. *)
Inductive exn := AttributeError | ValueError | QueryError.

Inductive result (A : Type) :=
  | Ok (a : A)
  | Raise (e : exn).
Arguments Ok {A} a.
Arguments Raise {A} e.

#[global] Instance result_ret : MRet result := λ A a, Ok a.
#[global] Instance result_bind : MBind result := λ A B k r,
  match r with
  | Ok a => k a
  | Raise e => Raise e
  end.

(** The three ways one iteration of a [for] body ends. *)
Inductive flow (A : Type) :=
  | Next (a : A)
  | Break (a : A)
  | Throw (e : exn).
Arguments Next {A} a.
Arguments Break {A} a.
Arguments Throw {A} e.

(** [for x in xs: body] over a state [A]. *)
Fixpoint for_each {X A} (body : X → A → flow A) (xs : list X) (a : A) : result A :=
  match xs with
  | [] => Ok a
  | x :: xs' =>
      match body x a with
      | Next a' => for_each body xs' a'
      | Break a' => Ok a'
      | Throw e => Raise e
      end
  end.

(** The loop passes over [xs]: every turn goes on to the next element. *)
Fixpoint passes {X A} (body : X → A → flow A) (xs : list X) (a a' : A) : Prop :=
  match xs with
  | [] => a' = a
  | x :: xs' => ∃ a1, body x a = Next a1 ∧ passes body xs' a1 a'
  end.


(** [for x in xs: body] when the body has no [break]. *)
Fixpoint for_all {X A} (body : X → A → result A) (xs : list X) (a : A) : result A :=
  match xs with
  | [] => Ok a
  | x :: xs' => a' ← body x a; for_all body xs' a'
  end.

(** ** The regular expression engine *)

(** What [regex.search(r, subject, flags)] does at lines 101-108: it
    raises, finds nothing, or returns a match object, of which the source
    only reads [groupdict()]: the named groups, [None] for a group that
    took no part in the match. *)
Inductive search_result :=
  | SearchRaises
  | SearchNone
  | SearchMatch (groupdict : gmap string (option string)).

(** [regex.search('(\d{1,3}\/\d{1,3})', subject)] followed by [group(1)],
    lines 133-135.  The pattern is a literal of the source: one to three
    digits, a slash, one to three digits, leftmost match, each run of
    digits as long as it can be. *)
Fixpoint digit_run (n : nat) (s : string) : nat :=
  match n, s with
  | S n', String a s' => if Py.is_digit a then S (digit_run n' s') else O
  | _, _ => O
  end.

Fixpoint drop_chars (n : nat) (s : string) : string :=
  match n, s with
  | S n', String _ s' => drop_chars n' s'
  | _, _ => s
  end.

Definition parts_at (s : string) : option string :=
  let k := digit_run 3 s in
  match k, drop_chars k s with
  | S _, String "/" rest =>
      match digit_run 3 rest with
      | O => None
      | S j => Some (substring 0 (k + 1 + S j) s)
      end
  | _, _ => None
  end.

Fixpoint search_parts (s : string) : option string :=
  match parts_at s with
  | Some g => Some g
  | None =>
      match s with
      | EmptyString => None
      | String _ s' => search_parts s'
      end
  end.

(** ** Storage *)

(** Modelled from the spec: the storage layer [pynab.db] ([db_session],
    [engine] and the mapped tables) is not in the source file.  Its
    operations are the ones of section 6, External interfaces: the four
    reads, the bulk insert of binaries and the bulk update of part
    ownership.  Each is named after the line of [binaries.py] that issues
    it.  The deletion of a rule of section 6 is not among them: line 105
    raises before any request reaches the storage, see [broken_regex]. *)
Class Storage (S : Type) := {
  (* line 83: the distinct group names of the stored parts *)
  part_group_names : S → list string;
  (* line 84: the rules whose scope is in the list, by ordinal *)
  regex_in : list string → S → list Regex.t;
  (* line 85: the parts of these groups that belong to no binary *)
  unclaimed_parts : list string → S → list Part.t;
  (* lines 27 and 43: (id, name) of the binaries with one of these names *)
  binaries_named : list string → S → list (Z * string);
  (* line 39 *)
  insert_binaries : list Binary.t → S → S;
  (* line 57: pairs (_id, _binary_id) *)
  update_parts : list (Z * Z) → S → S
}.

Inductive log_entry :=
  | ErrBrokenRegex (id : Z)              (* line 104 *)
  | ErrHorriblyWrong                     (* line 54 *)
  | InfoProcessed (parts binaries : Z).  (* line 182 *)

Definition CHUNK_SIZE : Z := 2000.

(** [dict(pairs)]: a later pair replaces an earlier one with the same key. *)
Definition py_dict {V} (kvs : list (string * V)) : gmap string V :=
  foldl (λ m kv, <[kv.1 := kv.2]> m) ∅ kvs.

Section Committer.
Context {S : Type} `{!Storage S}.

(** Lines 25-29 and 41-45: name to (id, name) row. *)
Definition existing_binaries (binaries : gmap string Binary.t) (db : S)
  : gmap string (Z * string) :=
  py_dict ((λ row, (row.2, row)) <$> binaries_named (map_to_list binaries).*1 db).

(** Lines 31-35.  A row is a non-empty tuple, so [not existing_binary]
    holds exactly when the name is not a key of the dict. *)
Definition binary_inserts (existing : gmap string (Z * string))
    (binaries : gmap string Binary.t) : list Binary.t :=
  foldl (λ inserts '(name, binary),
           match existing !! name with
           | None => inserts ++ [binary]
           | Some _ => inserts
           end) [] (map_to_list binaries).

(** Lines 47-54: the updates and the errors logged on the way. *)
Definition part_updates (existing : gmap string (Z * string))
    (binaries : gmap string Binary.t) : list (Z * Z) * list log_entry :=
  foldl (λ '(update_parts, errors) '(name, binary),
           match existing !! name with
           | Some existing_binary =>
               (update_parts ++
                  ((λ '(number, part), (Part.id part, existing_binary.1))
                     <$> map_to_list (Binary.parts binary)),
                errors)
           | None => (update_parts, errors ++ [ErrHorriblyWrong])
           end) ([], []) (map_to_list binaries).

(** The updates that one entry of the accumulation gives rise to: one
    for each part attached to it when its name is resolved, none when
    it is not. *)
Definition updates_for (existing : gmap string (Z * string))
    (entry : string * Binary.t) : list (Z * Z) :=
  match existing !! entry.1 with
  | Some existing_binary =>
      (λ '(number, part), (Part.id part, existing_binary.1))
        <$> map_to_list (Binary.parts entry.2)
  | None => []
  end.

(** What one call of [save] did, step by step. *)
Record committed := mk_committed {
  found_first : gmap string (Z * string);
  inserted : list Binary.t;
  found_second : gmap string (Z * string);
  updated : list (Z * Z);
  errors : list log_entry;
  stored : S
}.

Definition save_steps (binaries : gmap string Binary.t) (db : S) : committed :=
  let existing := existing_binaries binaries db in
  let inserts := binary_inserts existing binaries in
  let db1 := insert_binaries inserts db in
  let existing2 := existing_binaries binaries db1 in
  let '(updates, errs) := part_updates existing2 binaries in
  let db2 := update_parts updates db1 in
  mk_committed existing inserts existing2 updates errs db2.

(** [save(binaries)], lines 15-57: the new store and the log lines. *)
Definition save (binaries : gmap string Binary.t) (db : S) : S * list log_entry :=
  let c := save_steps binaries db in (stored c, errors c).
End Committer.

(** ** The classifier *)

(** [match.get(key)]: the value, or [None] for a missing key. *)
Definition get (fields : gmap string (option string)) (key : string) : option string :=
  default None (fields !! key).

(** Truth value of what [match.get] returns: [None] and [''] are false. *)
Definition truthy (v : option string) : bool :=
  match v with
  | Some (String _ _) => true
  | _ => false
  end.

(** [match[key]] for a key whose value is known to be a string. *)
Definition text (v : option string) : string := default "" v.

(** Lines 111-114: every value is stripped, unless one of them is [None];
    then [v.strip()] raises, the handler passes and [match] is kept. *)
Definition strip_values (fields : gmap string (option string)) : gmap string (option string) :=
  if bool_decide (map_Forall (λ _ v, is_Some v) fields)
  then (λ v : option string, Py.strip <$> v) <$> fields
  else fields.

(** Lines 117-118. *)
Definition fill_name (fields : gmap string (option string)) : gmap string (option string) :=
  if truthy (get fields "reqid") && negb (truthy (get fields "name"))
  then <["name" := get fields "reqid"]> fields
  else fields.

(** Lines 132-135. *)
Definition find_parts (subject : string) (fields : gmap string (option string))
  : gmap string (option string) :=
  if negb (truthy (get fields "parts")) then
    match search_parts subject with
    | Some g => <["parts" := Some g]> fields
    | None => fields
    end
  else fields.

(** [timediff.seconds]: the seconds field of a normalised [timedelta] of
    [us] microseconds; whole days are held in its [days] field. *)
Definition td_seconds (us : Z) : Z := (us `div` 1000000) `mod` 86400.

(** Line 138, [timediff.seconds / 60 / 60 > 3] with true division: for a
    whole number of seconds this is [seconds > 3 * 60 * 60]. *)
Definition three_hours_old (now posted : Z) : bool :=
  3 * 60 * 60 <? td_seconds (now - posted).

(** Lines 143-148. *)
Definition normalize_parts (parts : string) : string :=
  let parts :=
    if Py.find parts "/" =? -1
    then Py.replace (Py.replace (Py.replace parts "-" "/") "~" "/") " of " "/"
    else parts in
  Py.replace (Py.replace (Py.replace (Py.replace parts "[" "") "]" "") "(" "") ")" "".

(** The normal form of a part count in the words of the specification:
    without a slash, hyphen and tilde become a slash and so does the word
    [of] between two spaces; brackets and parentheses are dropped; the
    text is cut at its slash into the index and the total. *)
Module Spec.
Fixpoint map_chars (f : ascii → ascii) (s : string) : string :=
  match s with
  | EmptyString => EmptyString
  | String a s' => String (f a) (map_chars f s')
  end.

Fixpoint keep_chars (keep : ascii → bool) (s : string) : string :=
  match s with
  | EmptyString => EmptyString
  | String a s' => if keep a then String a (keep_chars keep s') else keep_chars keep s'
  end.

Fixpoint has_char (c : ascii) (s : string) : bool :=
  match s with
  | EmptyString => false
  | String a s' => Ascii.eqb a c || has_char c s'
  end.

Definition separator (c : ascii) : ascii :=
  if Ascii.eqb c "-" || Ascii.eqb c "~" then "/"%char else c.

Definition is_bracket (c : ascii) : bool :=
  Ascii.eqb c "[" || Ascii.eqb c "]" || Ascii.eqb c "(" || Ascii.eqb c ")".

Definition normalize (parts : string) : string :=
  let parts :=
    if has_char "/" parts then parts
    else Py.replace (map_chars separator parts) " of " "/" in
  keep_chars (λ c, negb (is_bracket c)) parts.

(** The text before the first [c] and the text after it. *)
Fixpoint cut (c : ascii) (s : string) : option (string * string) :=
  match s with
  | EmptyString => None
  | String a s' =>
      if Ascii.eqb a c then Some (EmptyString, s')
      else match cut c s' with
           | Some (before, after) => Some (String a before, after)
           | None => None
           end
  end.

(** (current-index, total-count), when there is exactly one slash. *)
Definition index_and_total (parts : string) : option (string * string) :=
  match cut "/" parts with
  | Some (current, total) => if has_char "/" total then None else Some (current, total)
  | None => None
  end.
End Spec.

(** An element of [relevant_regex], line 87: a rule, or the empty string
    that stands in for a rule of another group. *)
Inductive relevant :=
  | Rule (reg : Regex.t)
  | Blank.

Definition in_scope (part : Part.t) (reg : Regex.t) : bool :=
  bool_decide (Regex.group_name reg = Part.group_name part)
  || bool_decide (Regex.group_name reg = ".*").

Definition relevant_regex (part : Part.t) (all_regex : list Regex.t) : list relevant :=
  (λ reg, if in_scope part reg then Rule reg else Blank) <$> all_regex.

(** ** The driver loop *)

(** The local variables of [process], the session [db] and the log.
    [saves] and [filed] are history: the arguments of the calls of [save]
    made so far, and the (name, index, part) of each part filed under a
    binary.  Nothing in the run reads them. *)
Record Run (S : Type) := mk_run {
  binaries : gmap string Binary.t;
  orphan_binaries : list string;
  count : Z;
  total_processed : Z;
  total_binaries : Z;
  db : S;
  log : list log_entry;
  saves : list (gmap string Binary.t);
  filed : list (string * string * Part.t)
}.
Arguments mk_run {S}.
Arguments binaries {S}.
Arguments orphan_binaries {S}.
Arguments count {S}.
Arguments total_processed {S}.
Arguments total_binaries {S}.
Arguments db {S}.
Arguments log {S}.
Arguments saves {S}.
Arguments filed {S}.

Section Process.
Context {S : Type} `{!Storage S}.

(** [regex.search] on the patterns of the rules: pattern, subject, and
    whether [regex.I] is set. *)
Variable regex_search : string → string → bool → search_result.

(** Lines 103-106, the handler.  Line 104 logs the error.  Line 105,
    [db.query(Regex).filter(reg.id).remove()], then raises inside the
    handler: [Query.filter] takes criteria and is handed the integer
    [reg.id], and [Query] has no method [remove].  No rule is removed,
    the [continue] of line 106 is not reached, and nothing in [process]
    handles the exception: it leaves the loop, and the state of the run
    with the line just logged goes with it. *)
Definition broken_regex (reg : Regex.t) (s : Run S) : flow (Run S) :=
  let s := mk_run (binaries s) (orphan_binaries s) (count s) (total_processed s)
             (total_binaries s) (db s)
             (log s ++ [ErrBrokenRegex (Regex.id reg)]) (saves s) (filed s) in
  Throw QueryError.

(** Lines 139-140, the list of orphans only. *)
Definition add_orphan (name : string) (s : Run S) : Run S :=
  mk_run (binaries s) (orphan_binaries s ++ [name]) (count s) (total_processed s)
    (total_binaries s) (db s) (log s) (saves s) (filed s).

(** Lines 154-168: [binaries[name]] after the part is filed under it. *)
Definition file (name current : string) (part : Part.t) (b : Binary.t) (s : Run S) : Run S :=
  mk_run (<[name := b]> (binaries s)) (orphan_binaries s) (count s) (total_processed s)
    (total_binaries s) (db s) (log s) (saves s) (filed s ++ [(name, current, part)]).

(** Lines 142-169, once the name and the part count are known. *)
Definition aggregate (reg : Regex.t) (part : Part.t) (name parts : string)
    (s : Run S) : flow (Run S) :=
  match Py.split (normalize_parts parts) "/" with
  | [current; total] =>
      match binaries s !! name with
      | Some b => Break (file name current part (Binary.attach current part b) s)
      | None =>
          match Py.int total with
          | Some n =>
              Break (file name current part
                       (Binary.mk name (Part.posted part) (Part.posted_by part)
                          (Part.group_name part) (Part.xref part) (Regex.id reg)
                          n {[current := part]}) s)
          | None => Throw ValueError
          end
      end
  | _ => Throw ValueError
  end.

(** Lines 109-169: the body of [if match:]. *)
Definition accept (now : Z) (reg : Regex.t) (part : Part.t)
    (groupdict : gmap string (option string)) (s : Run S) : flow (Run S) :=
  let fields := fill_name (strip_values groupdict) in
  if negb (truthy (get fields "name")) then Next s else
  let fields := find_parts (Part.subject part) fields in
  let orphan := negb (truthy (get fields "parts")) && three_hours_old now (Part.posted part) in
  let s := if orphan then add_orphan (text (get fields "name")) s else s in
  let fields := if orphan then <["parts" := Some "00/00"]> fields else fields in
  if truthy (get fields "name") && truthy (get fields "parts")
  then aggregate reg part (text (get fields "name")) (text (get fields "parts")) s
  else Next s.

(** Lines 88-169: one turn of [for reg in relevant_regex].  [now] is
    the reading of the clock at line 126. *)
Definition rule_body (now : Z) (part : Part.t) (reg : relevant) (s : Run S) : flow (Run S) :=
  match reg with
  | Blank => Throw AttributeError
  | Rule reg =>
      let r := Regex.regex reg in
      let flags := Py.slice_from r (Py.rfind r "/" + 1) in
      let r := Py.slice r (Py.find r "/" + 1) (Py.rfind r "/") in
      let regex_flags := Py.contains flags "i" in
      match regex_search r (Part.subject part) regex_flags with
      | SearchRaises => broken_regex reg s
      | SearchNone => Next s
      | SearchMatch groupdict =>
          if bool_decide (groupdict = ∅) then Next s
          else accept now reg part groupdict s
      end
  end.

(** The pattern, the flag and the answer of the engine at line 102, as
    [rule_body] computes them. *)
Definition pattern_of (reg : Regex.t) : string :=
  let r := Regex.regex reg in Py.slice r (Py.find r "/" + 1) (Py.rfind r "/").

Definition ignore_case_of (reg : Regex.t) : bool :=
  let r := Regex.regex reg in Py.contains (Py.slice_from r (Py.rfind r "/" + 1)) "i".

Definition searched (part : Part.t) (reg : Regex.t) : search_result :=
  regex_search (pattern_of reg) (Part.subject part) (ignore_case_of reg).


(** Lines 172-175. *)
Definition flush (s : Run S) : Run S :=
  let '(db', errs) := save (binaries s) (db s) in
  mk_run ∅ (orphan_binaries s) 0 (total_processed s)
    (total_binaries s + Z.of_nat (size (binaries s))) db'
    (log s ++ errs) (saves s ++ [binaries s]) (filed s).

(** Lines 86-175: one turn of the loop over the parts. *)
Definition part_body (now : Z) (all_regex : list Regex.t) (part : Part.t)
    (s : Run S) : result (Run S) :=
  let s := mk_run (binaries s) (orphan_binaries s) (count s) (total_processed s + 1)
             (total_binaries s) (db s) (log s) (saves s) (filed s) in
  s ← for_each (rule_body now part) (relevant_regex part all_regex) s;
  if CHUNK_SIZE <=? count s then Ok (flush s) else Ok s.

(** Lines 177-184. *)
Definition finish (s : Run S) : Run S :=
  let total := total_binaries s + Z.of_nat (size (binaries s)) in
  let '(db', errs) := save (binaries s) (db s) in
  mk_run (binaries s) (orphan_binaries s) (count s) (total_processed s) total db'
    (log s ++ errs ++ [InfoProcessed (total_processed s) total])
    (saves s ++ [binaries s]) (filed s).

(** Line 84. *)
Definition load_rules (db : S) : list Regex.t :=
  regex_in (part_group_names db ++ [".*"]) db.

Definition start (db : S) : Run S := mk_run ∅ [] 0 0 0 db [] [] [].

(** [process()], lines 60-184. *)
Definition process (now : Z) (db : S) : result (Run S) :=
  let relevant_groups := part_group_names db in
  let all_regex := load_rules db in
  s ← for_all (part_body now all_regex) (unclaimed_parts relevant_groups db) (start db);
  Ok (finish s).
End Process.

(** ** A store made of three tables *)

(** Modelled from the spec: the tables behind [pynab.db], as lists of rows,
    with the relational reading of the queries of lines 27, 39, 43, 57,
    83, 84 and 85.  The binaries table draws its keys from a
    sequence.  The insert and the update take the list they are given,
    row by row, so that an empty list changes nothing; the source hands
    both lists over unguarded, and what the library behind
    [engine.execute] does with an empty one is not part of this model. *)
Module Store.
Record t := mk {
  part_table : list Part.t;
  regex_table : list Regex.t;
  binary_table : list BinaryRow.t;
  next_binary_id : Z
}.

Definition by_ordinal (a b : Regex.t) : Prop := Regex.ordinal a ≤ Regex.ordinal b.

#[global] Instance by_ordinal_dec : RelDecision by_ordinal.
Proof. intros a b. unfold by_ordinal. apply _. Defined.

#[global] Instance by_ordinal_trans : Transitive by_ordinal.
Proof. intros a b c. unfold by_ordinal. lia. Qed.

#[global] Instance by_ordinal_total : Total by_ordinal.
Proof. intros a b. unfold by_ordinal. lia. Qed.

Definition group_names (st : t) : list string :=
  remove_dups (Part.group_name <$> part_table st).

Definition rules_in (groups : list string) (st : t) : list Regex.t :=
  merge_sort by_ordinal
    (filter (λ reg, Regex.group_name reg ∈ groups) (regex_table st)).

Definition unclaimed_in (groups : list string) (st : t) : list Part.t :=
  filter (λ part, Part.group_name part ∈ groups ∧ Part.binary_id part = None)
    (part_table st).

Definition named (names : list string) (st : t) : list (Z * string) :=
  (λ row, (BinaryRow.id row, BinaryRow.name row))
    <$> filter (λ row, BinaryRow.name row ∈ names) (binary_table st).

Definition insert_one (st : t) (b : Binary.t) : t :=
  mk (part_table st) (regex_table st)
     (binary_table st ++ [BinaryRow.of_binary (next_binary_id st) b])
     (next_binary_id st + 1).

Definition insert (bs : list Binary.t) (st : t) : t := foldl insert_one st bs.

Definition claim (binary_id : Z) (part : Part.t) : Part.t :=
  Part.mk (Part.id part) (Part.group_name part) (Part.subject part)
    (Part.posted part) (Part.posted_by part) (Part.xref part) (Some binary_id).

Definition update_one (st : t) (u : Z * Z) : t :=
  mk ((λ part, if bool_decide (Part.id part = u.1) then claim u.2 part else part)
        <$> part_table st)
     (regex_table st) (binary_table st) (next_binary_id st).

Definition update (us : list (Z * Z)) (st : t) : t := foldl update_one st us.

#[global] Instance storage : Storage t := {
  part_group_names := group_names;
  regex_in := rules_in;
  unclaimed_parts := unclaimed_in;
  binaries_named := named;
  insert_binaries := insert;
  update_parts := update
}.
End Store.

(** ** The two readings of the rule loader and of a malformed count *)

(** Some part of the group belongs to no binary. *)
Definition holds_unclaimed (st : Store.t) (group : string) : Prop :=
  ∃ part, part ∈ Store.part_table st ∧ Part.group_name part = group
          ∧ Part.binary_id part = None.

(** Some part of the group is stored. *)
Definition holds_part (st : Store.t) (group : string) : Prop :=
  ∃ part, part ∈ Store.part_table st ∧ Part.group_name part = group.

(** The loader as the specification words it: the rules of the groups
    that hold unclaimed parts, and the rules for every group. *)
Definition loads_rules_of_unclaimed_groups (st : Store.t) : Prop :=
  ∀ reg, reg ∈ load_rules st ↔
         reg ∈ Store.regex_table st
         ∧ (holds_unclaimed st (Regex.group_name reg) ∨ Regex.group_name reg = ".*").

(** A part count that [aggregate] cannot take in: it does not split in
    two at the slash, or its total is no number and has to be read
    because the name is new. *)
Definition malformed (binaries : gmap string Binary.t) (name parts : string) : Prop :=
  match Py.split (normalize_parts parts) "/" with
  | [current; total] => binaries !! name = None ∧ Py.int total = None
  | _ => True
  end.

(** ** Invariants of a run over the table store *)

(** The (name, index) pairs under which parts were filed. *)
Definition keys (fl : list (string * string * Part.t)) : list (string * string) :=
  (λ f, f.1) <$> fl.

(** Every part that was filed is still attached to its binary. *)
Definition attached {S} (s : Run S) : Prop :=
  ∀ name current part, (name, current, part) ∈ filed s →
    ∃ b, binaries s !! name = Some b ∧ Binary.parts b !! current = Some part.

(** Every binary of the accumulation is stored under its own name. *)
Definition well_named (binaries : gmap string Binary.t) : Prop :=
  ∀ name b, binaries !! name = Some b → Binary.name b = name.

(** The turn of the rule for the part goes on to the next rule and leaves
    the run as it is. *)
Definition quiet (regex_search : string → string → bool → search_result)
    (now : Z) (part : Part.t) (reg : Regex.t) : Prop :=
  ∀ s0 : Run Store.t, rule_body regex_search now part (Rule reg) s0 = Next s0.

(** The loop over the rules passed the part over: every loaded rule is in
    the scope of the part, and its turn was quiet. *)
Definition passed_over (regex_search : string → string → bool → search_result)
    (now : Z) (all_regex : list Regex.t) (part : Part.t) : Prop :=
  ∀ reg, reg ∈ all_regex →
    in_scope part reg = true ∧ quiet regex_search now part reg.

(** Running twice leaves the parts and the binaries as the first run left
    them. *)
Definition idempotent_on (regex_search : string → string → bool → search_result)
    (now : Z) (st : Store.t) : Prop :=
  ∀ r1 r2, process regex_search now st = Ok r1 →
    process regex_search now (db r1) = Ok r2 →
    Store.part_table (db r2) = Store.part_table (db r1)
    ∧ Store.binary_table (db r2) = Store.binary_table (db r1).

(** ** A small engine for the examples *)

(** The answers of [regex.search] for the three patterns the examples
    use; no other pattern occurs in them.
    - [pat_name], one group [name] spanning a whole line: the subject,
      when it holds no line break but possibly a last one;
    - [pat_name_parts], a group [name] free of spaces, one space and a
      group [parts] up to the end of the line: the text before the first
      space, and the rest;
    - [pat_broken], an opening parenthesis: does not compile. *)
Module Fixture.
Definition pat_name : string := "^(?P<name>.*)$".
Definition pat_name_parts : string := "^(?P<name>[^ ]*) (?P<parts>.*)$".
Definition pat_broken : string := "(".

Definition newline : ascii := ascii_of_N 10.

(** [.*$] at the start of [s]: the text matched, if any. *)
Definition line (s : string) : option string :=
  let k := Py.find s newline in
  if k =? -1 then Some s
  else if k =? Py.len s - 1 then Some (Py.slice s 0 k)
  else None.

Definition search (r subject : string) (ignore_case : bool) : search_result :=
  if bool_decide (r = pat_broken) then SearchRaises
  else if bool_decide (r = pat_name) then
    match line subject with
    | Some name => SearchMatch {[ "name" := Some name ]}
    | None => SearchNone
    end
  else if bool_decide (r = pat_name_parts) then
    let k := Py.find subject " " in
    if k =? -1 then SearchNone
    else match line (Py.slice_from subject (k + 1)) with
         | Some parts =>
             SearchMatch {[ "name" := Some (Py.slice subject 0 k); "parts" := Some parts ]}
         | None => SearchNone
         end
  else SearchNone.

Definition part (id : Z) (group subject : string) (posted : Z) : Part.t :=
  Part.mk id group subject posted "poster" "" None.

Definition hours (h : Z) : Z := h * 3600 * 1000000.

(** A backlog of [n] parts of one group, [file1 1/1] to [filen 1/1],
    and the rule that names each of them after its first word. *)
Definition backlog (n : nat) : list Part.t :=
  (λ i : nat, part (Z.of_nat i) "alt.binaries.test" ("file" +:+ pretty i +:+ " 1/1") 0)
    <$> seq 1 n.

Definition backlog_store (n : nat) : Store.t :=
  Store.mk (backlog n)
    [Regex.mk 1 "alt.binaries.test" ("/" +:+ pat_name_parts +:+ "/i") 1] [] 1.

(** One part posted at time 0 whose subject is a bare name, and a rule
    for every group that captures [name] alone. *)
Definition orphan_store : Store.t :=
  Store.mk [part 1 "alt.binaries.test" "orphan.nzb" 0]
    [Regex.mk 1 ".*" ("/" +:+ pat_name +:+ "/") 1] [] 1.

(** Two groups, and one rule, for the first group only. *)
Definition two_group_store : Store.t :=
  Store.mk [part 1 "alt.x" "foo 1/1" 0; part 2 "alt.y" "bar 1/1" 0]
    [Regex.mk 1 "alt.x" ("/" +:+ pat_name_parts +:+ "/") 1] [] 1.



(** A part that already belongs to binary 1, the only part of its
    group, and a rule for that group. *)
Definition rule_x : Regex.t := Regex.mk 1 "alt.x" ("/" +:+ pat_name_parts +:+ "/") 1.
Definition claimed_store : Store.t :=
  Store.mk [Part.mk 1 "alt.x" "foo 1/1" 0 "poster" "" (Some 1)] [rule_x]
    [BinaryRow.mk 1 "foo" 0 "poster" "alt.x" "" 1 1] 2.

(** Part counts that stay malformed: three fields, and a total that is
    no number; each followed by a well-formed part. *)
Definition three_field_store : Store.t :=
  Store.mk [part 1 "alt.x" "foo 1/2/3" 0; part 2 "alt.x" "bar 1/1" 0] [rule_x] [] 1.
Definition bad_total_store : Store.t :=
  Store.mk [part 1 "alt.x" "foo 1/many" 0; part 2 "alt.x" "bar 1/1" 0] [rule_x] [] 1.
(** The same total, for a name that is already in the accumulation. *)
Definition late_bad_total_store : Store.t :=
  Store.mk [part 1 "alt.x" "foo 1/2" 0; part 2 "alt.x" "foo 2/many" 0] [rule_x] [] 1.

(** The same part of a binary posted twice. *)
Definition repost_store : Store.t :=
  Store.mk [part 1 "alt.x" "foo 1/2" 0; part 2 "alt.x" "foo 1/2" 0] [rule_x] [] 1.

(** Two parts of one binary and a part that no rule fits. *)
Definition tidy_store : Store.t :=
  Store.mk [part 1 "alt.x" "foo 1/2" 0; part 2 "alt.x" "foo 2/2" 0;
            part 3 "alt.x" "bar" 0] [rule_x] [] 1.

(** A rule that does not compile, ahead of one that does. *)
Definition broken_rule : Regex.t := Regex.mk 8 ".*" ("/" +:+ pat_broken +:+ "/") 0.
Definition part_x : Part.t := part 1 "alt.x" "foo 1/1" 0.
Definition broken_rule_store : Store.t :=
  Store.mk [part_x] [broken_rule; rule_x] [] 1.

(** The first run over [tidy_store]. *)
Definition tidy_run : Run Store.t :=
  match process search 0 tidy_store with
  | Ok r => r
  | Raise _ => start tidy_store
  end.
End Fixture.



(** ** Cross-references: [parse_xref], lines 187-195 *)

(** The characters of the class of line 192, letters read without regard
    to case: a letter, a digit, a dot, a hyphen or an underscore. *)
Definition is_group_char (c : ascii) : bool :=
  let n := N_of_ascii c in
  ((97 <=? n) && (n <=? 122) || (65 <=? n) && (n <=? 90))%N
  || Py.is_digit c || Ascii.eqb c "." || Ascii.eqb c "-" || Ascii.eqb c "_".

(** Every character of the text passes the test. *)
Fixpoint all_chars (keep : ascii → bool) (s : string) : bool :=
  match s with
  | EmptyString => true
  | String a s' => keep a && all_chars keep s'
  end.

(** The longest run of characters that pass the test at the head of the
    text, and what follows it. *)
Fixpoint span_chars (keep : ascii → bool) (s : string) : string * string :=
  match s with
  | EmptyString => (EmptyString, EmptyString)
  | String a s' =>
      if keep a
      then let '(run, rest) := span_chars keep s' in (String a run, rest)
      else (EmptyString, s)
  end.

Definition line_feed : string := String (ascii_of_N 10) EmptyString.

(** Line 192 and [group(1)] of line 194.  The pattern is a literal of the
    source, held to the start of the text: a run of characters of the
    class, a colon, digits or none, and then the end of the text or one
    last line feed.  The class excludes the colon and the digits exclude
    the line feed, so each run is as long as it can be.  A character of
    a text has a code below 256; among these the class, read without
    regard to case, holds no character but those of [is_group_char], and
    the digits are the ten of [Py.is_digit]. *)
Definition xref_group (raw_group : string) : option string :=
  match span_chars is_group_char raw_group with
  | (String a run, String ":" tail) =>
      let rest := (span_chars Py.is_digit tail).2 in
      if bool_decide (rest = EmptyString) || bool_decide (rest = line_feed)
      then Some (String a run)
      else None
  | _ => None
  end.

(** [parse_xref(xref)], lines 187-195. *)
Definition parse_xref (xref : string) : list string :=
  let raw_groups := Py.split xref " " in
  foldl (λ groups raw_group,
           match xref_group raw_group with
           | Some g => groups ++ [g]
           | None => groups
           end) [] raw_groups.

(** ** What holds of a run after the parts [seen] *)

(** Below the threshold: the counters, the binaries of the accumulation
    with the parts attached to them, the parts filed and the orphans all
    come from the parts seen so far and from the loaded rules. *)
Definition gathered_from {S} (now : Z) (all_regex : list Regex.t)
    (seen : list Part.t) (s : Run S) : Prop :=
  count s = 0 ∧ total_binaries s = 0
  ∧ total_processed s = Z.of_nat (length seen)
  ∧ saves s = []
  ∧ (∀ name b, binaries s !! name = Some b →
       name ≠ EmptyString ∧ Binary.name b = name
       ∧ (∃ reg, reg ∈ all_regex ∧ Binary.regex_id b = Regex.id reg)
       ∧ (∃ current part, Binary.parts b !! current = Some part)
       ∧ ∀ current part, Binary.parts b !! current = Some part →
           part ∈ seen ∧ (name, current, part) ∈ filed s)
  ∧ (∀ name current part, (name, current, part) ∈ filed s →
       part ∈ seen ∧ is_Some (binaries s !! name))
  ∧ (∀ name, name ∈ orphan_binaries s →
       ∃ part, part ∈ seen ∧ (name, "00", part) ∈ filed s
               ∧ three_hours_old now (Part.posted part) = true
               ∧ search_parts (Part.subject part) = None)
  ∧ (λ f, f.2) <$> filed s `sublist_of` seen.

(** The run over [Fixture.orphan_store] four hours after the part was
    posted. *)
Definition orphan_run : Run Store.t :=
  match process Fixture.search (Fixture.hours 4) Fixture.orphan_store with
  | Ok r => r
  | Raise _ => start Fixture.orphan_store
  end.

(** ** Views of the table store *)

(** A part without its owner: what [save] never changes. *)
Definition unowned (part : Part.t) : Part.t :=
  Part.mk (Part.id part) (Part.group_name part) (Part.subject part)
    (Part.posted part) (Part.posted_by part) (Part.xref part) None.

(** Some part with this identifier is attached in the accumulation. *)
Definition attached_id (binaries : gmap string Binary.t) (id : Z) : Prop :=
  ∃ name b current part,
    binaries !! name = Some b ∧ Binary.parts b !! current = Some part
    ∧ Part.id part = id.

(** The binaries table has one row for a name, one row for a key, and
    its sequence is ahead of every key. *)
Definition binaries_unique (st : Store.t) : Prop :=
  NoDup (BinaryRow.name <$> Store.binary_table st)
  ∧ NoDup (BinaryRow.id <$> Store.binary_table st)
  ∧ ∀ row, row ∈ Store.binary_table st → BinaryRow.id row < Store.next_binary_id st.

(** An accumulation of two binaries, one of which the store of
    [Fixture.claimed_store] holds already. *)
Definition foo_and_bar : gmap string Binary.t :=
  {[ "foo" := Binary.mk "foo" 0 "poster" "alt.x" "" 1 1
                {[ "1" := Part.mk 1 "alt.x" "foo 1/1" 0 "poster" "" (Some 1) ]};
     "bar" := Binary.mk "bar" 0 "poster" "alt.x" "" 1 2
                {[ "1" := Fixture.part 7 "alt.x" "bar 1/2" 0 ]} ]}.

(** [Fixture.claimed_store] with one more part, unclaimed. *)
Definition claimed_and_new : Store.t :=
  Store.mk [Part.mk 1 "alt.x" "foo 1/1" 0 "poster" "" (Some 1);
            Fixture.part 7 "alt.x" "bar 1/2" 0;
            Fixture.part 8 "alt.x" "baz" 0]
    [Fixture.rule_x] [BinaryRow.mk 1 "foo" 0 "poster" "alt.x" "" 1 1] 2.

(** The run over [claimed_and_new]. *)
Definition claimed_and_new_run : Run Store.t :=
  match process Fixture.search 0 claimed_and_new with
  | Ok r => r
  | Raise _ => start claimed_and_new
  end.
Example find_slash : Py.find "/a/b/i" "/" = 0 ∧ Py.rfind "/a/b/i" "/" = 4 ∧ Py.find "abc" "/" = -1.
Proof. done. Qed.

Example slice_pattern : Py.slice "/a/b/i" 1 4 = "a/b" ∧ Py.slice_from "/a/b/i" 5 = "i"
  ∧ Py.slice "abc" 0 (-1) = "ab" ∧ Py.slice "/" 1 0 = "".
Proof. done. Qed.

Example strip_ex : Py.strip "  a b  " = "a b" ∧ Py.strip "   " = "".
Proof. done. Qed.

Example replace_ex : Py.replace "3 of 5 of 7" " of " "/" = "3/5/7" ∧ Py.replace "a-b-" "-" "/" = "a/b/"
  ∧ Py.replace "[[1]" "[" "" = "1]" ∧ Py.replace "aaa" "aa" "b" = "ba".
Proof. done. Qed.

Example split_ex : Py.split "1/2" "/" = ["1"; "2"] ∧ Py.split "12" "/" = ["12"] ∧ Py.split "/" "/" = [""; ""]
  ∧ Py.split "" "/" = [""].
Proof. done. Qed.

Example int_ex : Py.int "020" = Some 20 ∧ Py.int " -7 " = Some (-7) ∧ Py.int "" = None
  ∧ Py.int "1_0" = Some 10 ∧ Py.int "1__0" = None ∧ Py.int "_1" = None ∧ Py.int "x" = None ∧ Py.int "+" = None.
Proof. done. Qed.

Example search_parts_ex :
  search_parts "Big.Movie [01/20] - x" = Some "01/20"
  ∧ search_parts "a 1234/5678 b" = Some "234/567"
  ∧ search_parts "12/ 3/x /4 5" = None
  ∧ search_parts "yEnc (1/1)" = Some "1/1".
Proof. done. Qed.

(** ** How one turn of the rule loop changes the run *)

Section Turns.
Context {S : Type} `{!Storage S}.
Variable regex_search : string → string → bool → search_result.

Lemma get_insert_eq fields key v : get (<[key := v]> fields) key = v.
Proof. unfold get. by rewrite lookup_insert_eq. Qed.

Lemma get_insert_ne fields key key' v :
  key ≠ key' → get (<[key := v]> fields) key' = get fields key'.
Proof. intros. unfold get. by rewrite lookup_insert_ne. Qed.

Lemma find_parts_name subject fields :
  get (find_parts subject fields) "name" = get fields "name".
Proof.
  unfold find_parts. destruct (negb _); [|done].
  destruct (search_parts subject); [|done]. by rewrite get_insert_ne.
Qed.

Lemma for_each_cons {X A} (body : X → A → flow A) x xs a :
  for_each body (x :: xs) a =
    match body x a with
    | Next a' => for_each body xs a'
    | Break a' => Ok a'
    | Throw e => Raise e
    end.
Proof. done. Qed.

(** A loop that ends passed over all its elements, or passed over
    some and then broke out. *)
Lemma for_each_inv {X A} (body : X → A → flow A) xs a a' :
  for_each body xs a = Ok a' →
  passes body xs a a'
  ∨ ∃ before x after a1,
      xs = before ++ x :: after ∧ passes body before a a1 ∧ body x a1 = Break a'.
Proof.
  revert a. induction xs as [|x xs IH]; intros a; simpl.
  - intros [= ->]. by left.
  - destruct (body x a) as [a1|a1|e] eqn:Hb; [| |done].
    + intros [Hp|(before & y & after & a2 & -> & Hp & Hy)]%IH.
      * left. eauto.
      * right. exists (x :: before), y, after, a2. simpl. eauto.
    + intros [= ->]. right. by exists [], x, xs, a.
Qed.

Lemma passes_for_each {X A} (body : X → A → flow A) xs ys a a1 :
  passes body xs a a1 → for_each body (xs ++ ys) a = for_each body ys a1.
Proof.
  revert a. induction xs as [|x xs IH]; intros a; simpl.
  - by intros ->.
  - intros (a2 & -> & Hp). by apply IH.
Qed.

(** What [aggregate] does when it files the part. *)
Lemma aggregate_break reg part name parts (s s' : Run S) :
  aggregate reg part name parts s = Break s' →
  ∃ current total,
    Py.split (normalize_parts parts) "/" = [current; total]
    ∧ ((∃ b, binaries s !! name = Some b
             ∧ s' = file name current part (Binary.attach current part b) s)
       ∨ (binaries s !! name = None
          ∧ ∃ n, Py.int total = Some n
                 ∧ s' = file name current part
                          (Binary.mk name (Part.posted part) (Part.posted_by part)
                             (Part.group_name part) (Part.xref part) (Regex.id reg)
                             n {[current := part]}) s)).
Proof.
  unfold aggregate.
  destruct (Py.split _ _) as [|current [|total [|]]]; try done.
  intros Hagg. exists current, total. split; [done|]. revert Hagg.
  destruct (binaries s !! name) as [b|]; [intros [= <-]; left; eauto|].
  destruct (Py.int total) as [n|]; [|done]. intros [= <-]. right. eauto.
Qed.

Lemma aggregate_inv reg part name parts (s : Run S) :
  match aggregate reg part name parts s with
  | Next _ => False
  | Break s' => True
  | Throw e => e = ValueError
  end.
Proof.
  unfold aggregate.
  destruct (Py.split _ _) as [|current [|total [|]]]; try done.
  destruct (binaries s !! name); [done|]. by destruct (Py.int total).
Qed.


Lemma accept_inv now reg part groupdict (s : Run S) :
  match accept now reg part groupdict s with
  | Next s' => s' = s
  | Break s' => ∃ name parts s0,
      (s0 = s ∨ s0 = add_orphan name s) ∧ aggregate reg part name parts s0 = Break s'
  | Throw e => e = ValueError
  end.
Proof.
  unfold accept.
  destruct (negb (truthy (get (fill_name _) "name"))) eqn:Hname; [done|].
  set (fields := find_parts _ _).
  assert (truthy (get fields "name") = true) as Hn.
  { unfold fields. rewrite find_parts_name. by destruct (truthy _). }
  destruct (negb (truthy (get fields "parts")) && three_hours_old _ _).
  - rewrite get_insert_ne, get_insert_eq, Hn by done. simpl.
    match goal with |- context [aggregate ?r ?p ?n ?q ?s0] =>
      pose proof (aggregate_inv r p n q s0) as Hagg;
      destruct (aggregate r p n q s0) eqn:Heq end; try done.
    eauto 10.
  - destruct (truthy _ && truthy _); [|done].
    match goal with |- context [aggregate ?r ?p ?n ?q ?s0] =>
      pose proof (aggregate_inv r p n q s0) as Hagg;
      destruct (aggregate r p n q s0) eqn:Heq end; try done.
    eauto 10.
Qed.


Lemma rule_body_rule now part reg (s : Run S) :
  rule_body regex_search now part (Rule reg) s =
    match searched regex_search part reg with
    | SearchRaises => Throw QueryError
    | SearchNone => Next s
    | SearchMatch groupdict =>
        if bool_decide (groupdict = ∅) then Next s
        else accept now reg part groupdict s
    end.
Proof. done. Qed.

(** A turn that goes on to the next rule changed nothing; a turn that
    stops the loop filed the part; a turn raises for the empty string,
    for a pattern on which the engine raises, or for a part count that
    cannot be read. *)
Lemma rule_body_inv now part reg (s : Run S) :
  match rule_body regex_search now part reg s with
  | Next s' => s' = s
  | Break s' => ∃ r name parts s0,
      reg = Rule r ∧ (s0 = s ∨ s0 = add_orphan name s)
      ∧ aggregate r part name parts s0 = Break s'
  | Throw e =>
      (reg = Blank ∧ e = AttributeError)
      ∨ (∃ r, reg = Rule r ∧ searched regex_search part r = SearchRaises
              ∧ e = QueryError)
      ∨ (∃ r, reg = Rule r ∧ searched regex_search part r ≠ SearchRaises
              ∧ e = ValueError)
  end.
Proof.
  destruct reg as [r|]; [|by left]. rewrite rule_body_rule.
  destruct (searched regex_search part r) as [| |groupdict] eqn:Hs;
    [by right; left; eauto|done|].
  case_bool_decide; [done|].
  pose proof (accept_inv now r part groupdict s) as Hacc.
  destruct (accept now r part groupdict s); [done| |].
  - destruct Hacc as (name & parts & s0 & Hs0 & Hagg). eauto 10.
  - right. right. exists r. by rewrite Hs.
Qed.


(** Filing is the only change of a breaking turn, besides the orphan
    list. *)
Lemma rule_body_break now part reg (s s' : Run S) :
  rule_body regex_search now part reg s = Break s' →
  ∃ r name current b,
    reg = Rule r
    ∧ binaries s' = <[name := b]> (binaries s)
    ∧ filed s' = filed s ++ [(name, current, part)]
    ∧ Binary.parts b !! current = Some part
    ∧ (binaries s !! name = None → Binary.regex_id b = Regex.id r ∧ Binary.name b = name)
    ∧ count s' = count s ∧ saves s' = saves s ∧ db s' = db s ∧ log s' = log s
    ∧ total_processed s' = total_processed s ∧ total_binaries s' = total_binaries s.
Proof.
  intros Hb. pose proof (rule_body_inv now part reg s) as Hinv. rewrite Hb in Hinv.
  destruct Hinv as (r & name & parts & s0 & -> & Hs0 & Hagg).
  apply aggregate_break in Hagg as (current & total & _ & Hagg).
  assert (binaries s0 = binaries s ∧ filed s0 = filed s ∧ count s0 = count s
          ∧ saves s0 = saves s ∧ db s0 = db s ∧ log s0 = log s
          ∧ total_processed s0 = total_processed s
          ∧ total_binaries s0 = total_binaries s)
    as (Hbin & Hfiled & Hc & Hsv & Hdb & Hlog & Htp & Htb) by by destruct Hs0 as [-> | ->].
  rewrite <-Hbin, <-Hfiled, <-Hc, <-Hsv, <-Hdb, <-Hlog, <-Htp, <-Htb.
  destruct Hagg as [(b & Hlook & ->)|(Hlook & n & _ & ->)].
  - exists r, name, current, (Binary.attach current part b). simpl.
    rewrite lookup_insert_eq. repeat split; try done; congruence.
  - eexists r, name, current, _. split; [done|]. split; [done|]. split; [done|].
    simpl. split; [apply lookup_singleton_eq|]. by repeat split.
Qed.

Lemma rule_body_next now part reg (s s' : Run S) :
  rule_body regex_search now part reg s = Next s' →
  binaries s' = binaries s ∧ filed s' = filed s ∧ orphan_binaries s' = orphan_binaries s
  ∧ count s' = count s ∧ saves s' = saves s
  ∧ total_processed s' = total_processed s ∧ total_binaries s' = total_binaries s.
Proof.
  intros Hb. pose proof (rule_body_inv now part reg s) as Hinv. rewrite Hb in Hinv.
  by subst.
Qed.

Lemma passes_rules now part regs (s s' : Run S) :
  passes (rule_body regex_search now part) regs s s' →
  binaries s' = binaries s ∧ filed s' = filed s ∧ orphan_binaries s' = orphan_binaries s
  ∧ count s' = count s ∧ saves s' = saves s
  ∧ total_processed s' = total_processed s ∧ total_binaries s' = total_binaries s.
Proof.
  revert s. induction regs as [|reg regs IH]; intros s; simpl.
  - by intros ->.
  - intros (s1 & Hb & Hp). apply rule_body_next in Hb. apply IH in Hp.
    destruct Hb as (?&?&?&?&?&?&?), Hp as (?&?&?&?&?&?&?). repeat split; congruence.
Qed.

(** The counter of line 70 is only ever read, at line 171, and reset,
    at line 173. *)
Lemma rule_body_count now part reg (s s' : Run S) :
  rule_body regex_search now part reg s = Next s'
  ∨ rule_body regex_search now part reg s = Break s' →
  count s' = count s ∧ saves s' = saves s.
Proof.
  intros [Hb|Hb].
  - by apply rule_body_next in Hb as (_ & _ & _ & ? & ? & _).
  - by apply rule_body_break in Hb as (r & name & current & b & _ & _ & _ & _ & _ & ? & ? & _).
Qed.

Lemma for_each_count now part regs (s s' : Run S) :
  for_each (rule_body regex_search now part) regs s = Ok s' →
  count s' = count s ∧ saves s' = saves s.
Proof.
  revert s. induction regs as [|reg regs IH]; intros s; simpl.
  - by intros [= ->].
  - destruct (rule_body _ _ _ _ _) as [s1|s1|e] eqn:Hb; [| |done].
    + intros Hrest. destruct (IH _ Hrest) as [-> ->].
      apply (rule_body_count now part reg); by left.
    + intros [= ->]. apply (rule_body_count now part reg); by right.
Qed.

Lemma part_body_count now all_regex part (s s' : Run S) :
  part_body regex_search now all_regex part s = Ok s' →
  count s = 0 → count s' = 0 ∧ saves s' = saves s.
Proof.
  unfold part_body. intros Hp Hc.
  destruct (for_each _ _ _) as [s1|] eqn:Hloop; [|done]. simpl in Hp.
  apply for_each_count in Hloop as [Hc1 Hs1]. simpl in *.
  rewrite Hc1, Hc in Hp. change (CHUNK_SIZE <=? 0) with false in Hp.
  injection Hp as <-. by rewrite Hc1, Hs1.
Qed.

Lemma for_all_count now all_regex parts (s s' : Run S) :
  for_all (part_body regex_search now all_regex) parts s = Ok s' →
  count s = 0 → count s' = 0 ∧ saves s' = saves s.
Proof.
  revert s. induction parts as [|part parts IH]; intros s; simpl.
  - by intros [= ->].
  - destruct (part_body _ _ _ _ _) as [s1|] eqn:Hp; [|done]. simpl.
    intros Hrest Hc. destruct (part_body_count _ _ _ _ _ Hp Hc) as [Hc1 <-].
    by apply IH.
Qed.

Lemma saves_finish (s : Run S) : saves (finish s) = saves s ++ [binaries s].
Proof. unfold finish. by destruct (save _ _). Qed.

(** Whatever the backlog, a run that ends has called [save] once, at
    line 178, with everything it gathered. *)
Lemma process_saves_once now (db0 : S) (r : Run S) :
  process regex_search now db0 = Ok r → saves r = [binaries r] ∧ count r = 0.
Proof.
  unfold process. destruct (for_all _ _ _) as [s|] eqn:Hloop; [|done].
  simpl. intros [= <-]. apply for_all_count in Hloop as [Hc Hs]; [|done].
  rewrite saves_finish, Hs. unfold finish. by destruct (save _ _).
Qed.

(** The one call of [save] gets the whole accumulation. *)
Lemma process_saves_sizes now (db0 : S) (n : nat) :
  match for_all (part_body regex_search now (load_rules db0))
          (unclaimed_parts (part_group_names db0) db0) (start db0) with
  | Ok s => size (binaries s) = n
  | Raise _ => False
  end →
  ∃ r, process regex_search now db0 = Ok r ∧ size <$> saves r = [n] ∧ count r = 0.
Proof.
  intros Hloop. unfold process.
  destruct (for_all _ _ _) as [s|] eqn:Hs; [|done].
  exists (finish s). split; [done|].
  destruct (process_saves_once now db0 (finish s)) as [-> ->];
    [unfold process; by rewrite Hs|].
  split; [|done]. unfold finish. destruct (save _ _). simpl. by rewrite Hloop.
Qed.
End Turns.

(** ** Chunking *)

(** C1.  The counter of parts processed since the last flush is never
    advanced, so the threshold of 2000 is never reached: on a backlog of
    4500 parts that all match, under 4500 distinct names, [save] is called
    once, after the last part and with all 4500 binaries, and not three
    times with 2000, 2000 and 500. *)
Theorem backlog_4500_saved_once :
  ∃ r, process Fixture.search 0 (Fixture.backlog_store 4500) = Ok r
       ∧ size <$> saves r = [4500%nat] ∧ count r = 0.
Proof.
  apply (process_saves_sizes Fixture.search 0 (Fixture.backlog_store 4500) 4500%nat).
  vm_compute. reflexivity.
Qed.

(** ** Orphans *)

(** Whole days do not count: the test of line 138 gives the same answer
    for a part and for the same part any number of days older. *)
Lemma three_hours_old_days (now posted days : Z) :
  three_hours_old (now + days * (86400 * 1000000)) posted = three_hours_old now posted.
Proof.
  unfold three_hours_old, td_seconds. f_equal.
  replace (now + days * (86400 * 1000000) - posted)
    with (now - posted + (days * 86400) * 1000000) by lia.
  rewrite Z.div_add by lia. by rewrite Z.mod_add by lia.
Qed.

(** C3.  A part whose subject yields a name and no part count is turned
    into an orphan with the count 00/00, a total of 0, when it is 4 hours
    old, and is left alone when it is 2 hours old.  A part that is 25 hours
    old is left alone too, although its age exceeds 3 hours: line 138 reads
    the seconds field of the time difference, which does not include whole
    days, and 25 hours is one day and one hour. *)
Theorem orphan_after_a_day_is_missed :
  (∃ r b, process Fixture.search (Fixture.hours 4) Fixture.orphan_store = Ok r
        ∧ orphan_binaries r = ["orphan.nzb"]
        ∧ binaries r !! "orphan.nzb" = Some b
        ∧ Binary.total_parts b = 0
        ∧ Binary.parts b = {[ "00" := Fixture.part 1 "alt.binaries.test" "orphan.nzb" 0 ]})
  ∧ (∃ r, process Fixture.search (Fixture.hours 2) Fixture.orphan_store = Ok r
        ∧ orphan_binaries r = [] ∧ binaries r = ∅)
  ∧ (∃ r, process Fixture.search (Fixture.hours 25) Fixture.orphan_store = Ok r
        ∧ orphan_binaries r = [] ∧ binaries r = ∅
        ∧ Part.binary_id <$> Store.part_table (db r) = [None]).
Proof.
  split; [|split].
  - eexists _, _. split; [vm_compute; reflexivity|]. done.
  - eexists. split; [vm_compute; reflexivity|]. done.
  - eexists. split; [vm_compute; reflexivity|]. done.
Qed.

(** ** Scope *)

(** C4.  A rule of another group is not dropped from the list of a part
    but replaced by the empty string, and the loop then reads the pattern
    of that string: with parts in two groups and one rule for the first
    group, the part of the second group stops the run with an
    AttributeError. *)
Theorem rule_of_other_group_stops_the_run :
  process Fixture.search 0 Fixture.two_group_store = Raise AttributeError.
Proof. vm_compute. reflexivity. Qed.

(** ** Priority *)

Section Priority.
Variable regex_search : string → string → bool → search_result.

Lemma load_rules_sorted (db0 : Store.t) :
  StronglySorted Store.by_ordinal (load_rules db0).
Proof. apply StronglySorted_merge_sort; apply _. Qed.

Lemma relevant_regex_app part xs ys :
  relevant_regex part (xs ++ ys) = relevant_regex part xs ++ relevant_regex part ys.
Proof. apply fmap_app. Qed.


End Priority.


(** ** The committer *)

Section CommitterFacts.
Context {S : Type} `{!Storage S}.

Lemma py_dict_from_lookup {V} (kvs : list (string * V)) (m : gmap string V) k v :
  foldl (λ m kv, <[kv.1 := kv.2]> m) m kvs !! k = Some v →
  (k, v) ∈ kvs ∨ m !! k = Some v.
Proof.
  revert m. induction kvs as [|[k' v'] kvs IH]; intros m; simpl; [by right|].
  intros [Hin|Hm]%IH; [left; by right|].
  destruct (decide (k' = k)) as [->|Hne].
  - rewrite lookup_insert_eq in Hm. injection Hm as ->. left. by left.
  - rewrite lookup_insert_ne in Hm by done. by right.
Qed.

Lemma py_dict_from_none {V} (kvs : list (string * V)) (m : gmap string V) k :
  foldl (λ m kv, <[kv.1 := kv.2]> m) m kvs !! k = None ↔
  m !! k = None ∧ k ∉ kvs.*1.
Proof.
  revert m. induction kvs as [|[k' v'] kvs IH]; intros m; simpl.
  - split; [intros ?; split; [done|apply not_elem_of_nil]|by intros [? _]].
  - rewrite IH, not_elem_of_cons. destruct (decide (k' = k)) as [->|Hne].
    + rewrite lookup_insert_eq. split; [by intros [? _]|by intros [_ [? _]]].
    + rewrite lookup_insert_ne by done.
      split; [by intros [? ?]|by intros [? [? ?]]].
Qed.

(** A key of [dict(pairs)] is bound to one of the pairs given for it. *)
Lemma py_dict_lookup {V} (kvs : list (string * V)) k v :
  py_dict kvs !! k = Some v → (k, v) ∈ kvs.
Proof. intros [?|?]%py_dict_from_lookup; [done|by rewrite lookup_empty in *]. Qed.

Lemma py_dict_none {V} (kvs : list (string * V)) k :
  py_dict kvs !! k = None ↔ k ∉ kvs.*1.
Proof.
  unfold py_dict. rewrite py_dict_from_none, lookup_empty.
  split; [by intros [_ ?]|done].
Qed.

(** A resolved name is bound to a row that the query returned for it. *)
Lemma existing_binaries_lookup (B : gmap string Binary.t) (db : S) name row :
  existing_binaries B db !! name = Some row →
  row ∈ binaries_named (map_to_list B).*1 db ∧ row.2 = name.
Proof.
  unfold existing_binaries. intros Hl%py_dict_lookup.
  apply list_elem_of_fmap in Hl as (row' & [= -> ->] & Hin). done.
Qed.

Lemma existing_binaries_none (B : gmap string Binary.t) (db : S) name :
  existing_binaries B db !! name = None ↔
  name ∉ (binaries_named (map_to_list B).*1 db).*2.
Proof.
  unfold existing_binaries. rewrite py_dict_none, <-list_fmap_compose.
  by apply not_iff_compat.
Qed.

Lemma binary_inserts_from (existing : gmap string (Z * string)) (entries : list (string * Binary.t)) inserts :
  foldl (λ inserts '(name, binary),
           match existing !! name with
           | None => inserts ++ [binary]
           | Some _ => inserts
           end) inserts entries
  = inserts ++ (filter (λ entry, existing !! entry.1 = None) entries).*2.
Proof.
  revert inserts. induction entries as [|[name b] entries IH]; intros inserts; simpl.
  - by rewrite app_nil_r.
  - rewrite IH, filter_cons. simpl. destruct (existing !! name) eqn:Hl.
    + by rewrite decide_False.
    + rewrite decide_True by done. simpl. by rewrite <-app_assoc.
Qed.

(** The rows to insert are the entries whose name was not found. *)
Lemma binary_inserts_spec (existing : gmap string (Z * string)) (B : gmap string Binary.t) :
  binary_inserts existing B
  = (filter (λ entry, existing !! entry.1 = None) (map_to_list B)).*2.
Proof. unfold binary_inserts. by rewrite binary_inserts_from. Qed.

Lemma part_updates_from (existing : gmap string (Z * string)) (entries : list (string * Binary.t)) ups errs :
  foldl (λ '(update_parts, errors) '(name, binary),
           match existing !! name with
           | Some existing_binary =>
               (update_parts ++
                  ((λ '(number, part), (Part.id part, existing_binary.1))
                     <$> map_to_list (Binary.parts binary)),
                errors)
           | None => (update_parts, errors ++ [ErrHorriblyWrong])
           end) (ups, errs) entries
  = (ups ++ (entries ≫= updates_for existing),
     errs ++ ((λ _, ErrHorriblyWrong)
                <$> filter (λ entry, existing !! entry.1 = None) entries)).
Proof.
  revert ups errs. induction entries as [|[name b] entries IH]; intros ups errs; simpl.
  - by rewrite !app_nil_r.
  - rewrite filter_cons. csimpl.
    assert (updates_for existing (name, b) =
              match existing !! name with
              | Some row => (λ '(number, part), (Part.id part, row.1))
                              <$> map_to_list (Binary.parts b)
              | None => []
              end) as -> by done.
    destruct (existing !! name) eqn:Hl; rewrite IH.
    + rewrite decide_False by done. by rewrite <-app_assoc.
    + rewrite decide_True by done. csimpl. by rewrite <-app_assoc.
Qed.

(** The updates are those of the resolved entries, and one error is
    logged for each entry that is not resolved. *)
Lemma part_updates_spec (existing : gmap string (Z * string)) (B : gmap string Binary.t) :
  part_updates existing B
  = (map_to_list B ≫= updates_for existing,
     (λ _, ErrHorriblyWrong)
       <$> filter (λ entry, existing !! entry.1 = None) (map_to_list B)).
Proof. unfold part_updates. by rewrite part_updates_from. Qed.

(** [save] step by step, with its two loops written as a filter and as
    a concatenation. *)
Lemma save_steps_eq (B : gmap string Binary.t) (db : S) :
  save_steps B db =
    let existing := existing_binaries B db in
    let inserts := (filter (λ entry, existing !! entry.1 = None) (map_to_list B)).*2 in
    let db1 := insert_binaries inserts db in
    let existing2 := existing_binaries B db1 in
    let updates := map_to_list B ≫= updates_for existing2 in
    mk_committed existing inserts existing2 updates
      ((λ _, ErrHorriblyWrong)
         <$> filter (λ entry, existing2 !! entry.1 = None) (map_to_list B))
      (update_parts updates db1).
Proof. unfold save_steps. by rewrite part_updates_spec, binary_inserts_spec. Qed.

Lemma inserted_elem (B : gmap string Binary.t) (db : S) b :
  b ∈ inserted (save_steps B db) ↔
  ∃ name, B !! name = Some b ∧ name ∉ (binaries_named (map_to_list B).*1 db).*2.
Proof.
  rewrite save_steps_eq. simpl. rewrite list_elem_of_fmap. split.
  - intros ([name b'] & -> & [Hnone Hin]%list_elem_of_filter). simpl in *.
    exists name. split; [by apply elem_of_map_to_list|].
    by apply existing_binaries_none.
  - intros (name & Hl & Hnot). exists (name, b). split; [done|].
    apply list_elem_of_filter. split; [by apply existing_binaries_none|].
    by apply elem_of_map_to_list.
Qed.

(** C7.  [save] works in two rounds.  It inserts, in one call, exactly
    the entries of the accumulation whose name the first query did not
    return, and asks again for the same names on the store that holds
    the new rows.  Every update of a part carries the identifier of a
    row that this second query returned for the name under which the
    part is attached.  A name that the second query did not return
    gives no update at all and one error line in the log.  The updates
    are issued in one call, after the insert. *)
Theorem save_two_rounds (B : gmap string Binary.t) (db : S) :
  found_first (save_steps B db) = existing_binaries B db
  ∧ (∀ b, b ∈ inserted (save_steps B db) ↔
          ∃ name, B !! name = Some b
                  ∧ name ∉ (binaries_named (map_to_list B).*1 db).*2)
  ∧ length (inserted (save_steps B db))
    = length (filter (λ entry, found_first (save_steps B db) !! entry.1 = None)
                (map_to_list B))
  ∧ found_second (save_steps B db)
    = existing_binaries B (insert_binaries (inserted (save_steps B db)) db)
  ∧ (∀ pid bid, (pid, bid) ∈ updated (save_steps B db) →
       ∃ name b current part,
         B !! name = Some b ∧ Binary.parts b !! current = Some part
         ∧ Part.id part = pid
         ∧ found_second (save_steps B db) !! name = Some (bid, name)
         ∧ (bid, name) ∈ binaries_named (map_to_list B).*1
                           (insert_binaries (inserted (save_steps B db)) db))
  ∧ updated (save_steps B db)
    = map_to_list B ≫= updates_for (found_second (save_steps B db))
  ∧ (∀ name b, B !! name = Some b →
       found_second (save_steps B db) !! name = None →
       updates_for (found_second (save_steps B db)) (name, b) = []
       ∧ ErrHorriblyWrong ∈ errors (save_steps B db))
  ∧ errors (save_steps B db)
    = (λ _, ErrHorriblyWrong)
        <$> filter (λ entry, found_second (save_steps B db) !! entry.1 = None)
              (map_to_list B)
  ∧ stored (save_steps B db)
    = update_parts (updated (save_steps B db))
        (insert_binaries (inserted (save_steps B db)) db).
Proof.
  split; [by rewrite save_steps_eq|]. split; [apply inserted_elem|].
  rewrite save_steps_eq. simpl.
  set (existing := existing_binaries B db).
  set (inserts := (filter _ (map_to_list B)).*2).
  set (existing2 := existing_binaries B (insert_binaries inserts db)).
  split; [|split; [done|split; [|split; [done|split; [|done]]]]].
  - unfold inserts. by rewrite length_fmap.
  - intros pid bid ([name b] & Hup & Hentry)%list_elem_of_bind.
    apply elem_of_map_to_list in Hentry. unfold updates_for in Hup. simpl in Hup.
    destruct (existing2 !! name) as [row|] eqn:Hrow; [|by apply elem_of_nil in Hup].
    apply list_elem_of_fmap in Hup as ([current part] & [= -> ->] & Hpart).
    apply elem_of_map_to_list in Hpart.
    destruct (existing_binaries_lookup _ _ _ _ Hrow) as [Hin Hname].
    destruct row as [bid name']. simpl in *. subst name'.
    exists name, b, current, part. done.
  - intros name b Hl Hnone. unfold updates_for. simpl. rewrite Hnone. split; [done|].
    apply list_elem_of_fmap. exists (name, b). split; [done|].
    apply list_elem_of_filter. split; [done|]. by apply elem_of_map_to_list.
Qed.
End CommitterFacts.

(** ** Part counts *)

Section PartCount.
Lemma replace_char_char (c d : ascii) (s : string) :
  Py.replace s (String c EmptyString) (String d EmptyString)
  = Spec.map_chars (λ a, if Ascii.eqb c a then d else a) s.
Proof.
  unfold Py.replace. induction s as [|a s IH]; [done|]. simpl.
  destruct (Ascii.eqb c a); simpl; by rewrite IH.
Qed.

Lemma replace_char_empty (c : ascii) (s : string) :
  Py.replace s (String c EmptyString) EmptyString
  = Spec.keep_chars (λ a, negb (Ascii.eqb c a)) s.
Proof.
  unfold Py.replace. induction s as [|a s IH]; [done|]. simpl.
  destruct (Ascii.eqb c a); simpl; by rewrite IH.
Qed.

Lemma map_chars_compose f g s :
  Spec.map_chars f (Spec.map_chars g s) = Spec.map_chars (λ a, f (g a)) s.
Proof. induction s as [|a s IH]; [done|]. simpl. by rewrite IH. Qed.

Lemma map_chars_ext f g s :
  (∀ a, f a = g a) → Spec.map_chars f s = Spec.map_chars g s.
Proof. intros Hfg. induction s as [|a s IH]; [done|]. simpl. by rewrite Hfg, IH. Qed.

Lemma keep_chars_compose f g s :
  Spec.keep_chars f (Spec.keep_chars g s) = Spec.keep_chars (λ a, g a && f a) s.
Proof.
  induction s as [|a s IH]; [done|]. simpl.
  destruct (g a); simpl; [destruct (f a)|]; by rewrite IH.
Qed.

Lemma keep_chars_ext f g s :
  (∀ a, f a = g a) → Spec.keep_chars f s = Spec.keep_chars g s.
Proof. intros Hfg. induction s as [|a s IH]; [done|]. simpl. by rewrite Hfg, IH. Qed.

Lemma find_from_none c s i : 0 ≤ i → Py.find_from c s i = -1 ↔ Spec.has_char c s = false.
Proof.
  revert i. induction s as [|a s IH]; intros i Hi; simpl; [done|].
  destruct (Ascii.eqb a c); simpl; [split; [lia|done]|]. apply IH. lia.
Qed.

Lemma find_none s c : (Py.find s c =? -1) = negb (Spec.has_char c s).
Proof.
  pose proof (find_from_none c s 0 ltac:(done)) as Hf. unfold Py.find.
  destruct (Spec.has_char c s); simpl.
  - apply Z.eqb_neq. intros Heq. by apply Hf in Heq.
  - apply Z.eqb_eq. by apply Hf.
Qed.

(** The code and the wording agree on the normal form. *)
Lemma normalize_parts_spec parts : normalize_parts parts = Spec.normalize parts.
Proof.
  unfold normalize_parts, Spec.normalize. rewrite find_none.
  rewrite !replace_char_empty, !keep_chars_compose.
  destruct (Spec.has_char "/" parts); cbn [negb].
  - apply keep_chars_ext. intros a.
    by destruct a as [[] [] [] [] [] [] [] []].
  - rewrite !replace_char_char, map_chars_compose.
    rewrite (map_chars_ext _ Spec.separator).
    + apply keep_chars_ext. intros a.
      by destruct a as [[] [] [] [] [] [] [] []].
    + intros a. by destruct a as [[] [] [] [] [] [] [] []].
Qed.

Lemma split_nonempty s c : Py.split s c ≠ [].
Proof. induction s as [|a s IH]; simpl; [done|]. destruct (Ascii.eqb a c); [done|]. by destruct (Py.split s c). Qed.

Lemma split_single s c w : Py.split s c = [w] ↔ Spec.has_char c s = false ∧ w = s.
Proof.
  revert w. induction s as [|a s IH]; intros w; simpl.
  - split; [by intros [= <-]|by intros [_ ->]].
  - destruct (Ascii.eqb a c); simpl.
    + split; [|by intros [? _]]. intros [= _ Hs]. by destruct (split_nonempty s c).
    + destruct (Py.split s c) as [|w' ws] eqn:Hs; [by destruct (split_nonempty s c)|].
      split.
      * intros [= <- ->]. destruct (IH w') as [[Hn ->] _]; done.
      * intros [Hn ->]. destruct (IH s) as [_ Hback].
        specialize (Hback (conj Hn eq_refl)). by injection Hback as -> ->.
Qed.

(** Cutting at the only slash is what [split] does when it yields two
    fields. *)
Lemma split_pair s current total :
  Py.split s "/" = [current; total] ↔ Spec.index_and_total s = Some (current, total).
Proof.
  unfold Spec.index_and_total. revert current.
  induction s as [|a s IH]; intros current; simpl; [done|].
  destruct (Ascii.eqb a "/") eqn:Ha.
  - split.
    + intros [= <- Hs]. apply split_single in Hs as [-> ->]. done.
    + destruct (Spec.has_char "/" s) eqn:Hn; [done|]. intros [= <- <-].
      f_equal. by apply split_single.
  - destruct (Py.split s "/") as [|w ws] eqn:Hs; [by destruct (split_nonempty s "/")|].
    split.
    + intros [= <- ->]. destruct (IH w) as [Hfwd _]. specialize (Hfwd eq_refl).
      destruct (Spec.cut "/" s) as [[before after]|]; [|done].
      destruct (Spec.has_char "/" after); [done|]. by injection Hfwd as -> ->.
    + destruct (Spec.cut "/" s) as [[before after]|] eqn:Hc; [|done].
      destruct (Spec.has_char "/" after) eqn:Hh; [done|]. intros [= <- <-].
      destruct (IH before) as [_ Hback]. specialize (Hback eq_refl).
      by injection Hback as -> ->.
Qed.

(** C8.  The part count of a match is normalised as worded: when it has
    no slash, hyphen, tilde and the word [of] between spaces become a
    slash; then brackets and parentheses are dropped; then the text is
    cut at the slash into the index and the total, and a turn that files
    a part files it under that index, with that total when the binary is
    new.  So [(3 of 5)] gives index 3 and total 5, and [[01/20]] gives
    index 01 and total 20. *)
Theorem part_count_normalized :
  (∀ parts, normalize_parts parts = Spec.normalize parts)
  ∧ (∀ parts current total,
       Py.split (normalize_parts parts) "/" = [current; total]
       ↔ Spec.index_and_total (Spec.normalize parts) = Some (current, total))
  ∧ (∀ {S : Type} `{!Storage S} reg part name parts (s s' : Run S),
       aggregate reg part name parts s = Break s' →
       ∃ current total b,
         Spec.index_and_total (Spec.normalize parts) = Some (current, total)
         ∧ filed s' = filed s ++ [(name, current, part)]
         ∧ binaries s' !! name = Some b
         ∧ Binary.parts b !! current = Some part
         ∧ (binaries s !! name = None → Some (Binary.total_parts b) = Py.int total))
  ∧ Py.split (normalize_parts "(3 of 5)") "/" = ["3"; "5"]
  ∧ Py.int "5" = Some 5
  ∧ Py.split (normalize_parts "[01/20]") "/" = ["01"; "20"]
  ∧ Py.int "20" = Some 20.
Proof.
  split; [apply normalize_parts_spec|]. split; [|split; [|done]].
  - intros parts current total. rewrite <-normalize_parts_spec. apply split_pair.
  - intros S ? reg part name parts s s' Hagg.
    apply aggregate_break in Hagg as (current & total & Hsplit & Hagg).
    rewrite <-normalize_parts_spec. apply split_pair in Hsplit.
    destruct Hagg as [(b & Hl & ->)|(Hl & n & Hint & ->)].
    + exists current, total, (Binary.attach current part b). simpl.
      rewrite !lookup_insert_eq. repeat split; try done. congruence.
    + eexists current, total, _. simpl. rewrite lookup_insert_eq.
      split; [done|]. split; [done|]. split; [done|]. simpl.
      rewrite lookup_singleton_eq. done.
Qed.
End PartCount.

(** ** The rule loader *)

Section Loader.
Lemma load_rules_elem (st : Store.t) reg :
  reg ∈ load_rules st ↔
  reg ∈ Store.regex_table st
  ∧ (holds_part st (Regex.group_name reg) ∨ Regex.group_name reg = ".*").
Proof.
  unfold load_rules. simpl. unfold Store.rules_in.
  rewrite merge_sort_Permutation, list_elem_of_filter, elem_of_app.
  unfold Store.group_names. rewrite elem_of_remove_dups, list_elem_of_fmap.
  rewrite list_elem_of_singleton. unfold holds_part. split.
  - intros [[(part & -> & Hin) | ->] Hreg]; split; eauto.
  - intros [Hreg [(part & Hin & <-) | ->]]; split; eauto.
Qed.

(** The claim as worded fails on a store whose only part is claimed:
    the rule of its group is loaded all the same. *)
Lemma loader_reads_claimed_groups :
  ¬ loads_rules_of_unclaimed_groups Fixture.claimed_store.
Proof.
  intros Hspec. destruct (Hspec Fixture.rule_x) as [Hfwd _].
  destruct Hfwd as [_ [(part & Hin & _ & Hnone)|Hwild]].
  - apply load_rules_elem. split; [apply list_elem_of_here|].
    left. eexists. split; [apply list_elem_of_here|done].
  - apply list_elem_of_singleton in Hin as ->. done.
  - done.
Qed.

(** C9, amended.  The rules loaded for a run are exactly the stored
    rules whose scope is the group of some stored part, claimed or not,
    or the scope of every group; they come in ascending order of their
    ordinal, each as often as it is stored.  Loading is a query: it
    returns the list and leaves the store as it is. *)
Theorem rules_loaded_for_stored_groups (st : Store.t) :
  (∀ reg, reg ∈ load_rules st ↔
          reg ∈ Store.regex_table st
          ∧ (holds_part st (Regex.group_name reg) ∨ Regex.group_name reg = ".*"))
  ∧ load_rules st
    ≡ₚ filter (λ reg, Regex.group_name reg ∈ Store.group_names st ++ [".*"])
         (Store.regex_table st)
  ∧ StronglySorted Store.by_ordinal (load_rules st)
  ∧ (∀ group, holds_unclaimed st group → holds_part st group).
Proof.
  split; [apply load_rules_elem|]. split; [apply merge_sort_Permutation|].
  split; [apply load_rules_sorted|].
  intros group (part & Hin & Hg & _). by exists part.
Qed.
End Loader.

(** ** Malformed part counts *)

Section Malformed.
Context {S : Type} `{!Storage S}.
Variable regex_search : string → string → bool → search_result.

Lemma aggregate_throws reg part name parts (s : Run S) :
  aggregate reg part name parts s = Throw ValueError ↔ malformed (binaries s) name parts.
Proof.
  unfold aggregate, malformed.
  destruct (Py.split _ _) as [|current [|total [|]]]; try done.
  destruct (binaries s !! name); [split; [done|by intros [? _]]|].
  destruct (Py.int total); [split; [done|by intros [_ ?]]|done].
Qed.

Lemma for_all_app {X A} (body : X → A → result A) xs ys a :
  for_all body (xs ++ ys) a = (a' ← for_all body xs a; for_all body ys a').
Proof.
  revert a. induction xs as [|x xs IH]; intros a; simpl; [done|].
  destruct (body x a) as [a1|e]; simpl; [apply IH|done].
Qed.

(** An exception of the rule loop is not handled anywhere: it ends the
    loop over the parts and the run, before the last [save]. *)
Lemma raise_ends_the_run now (db0 : S) done part todo (s : Run S) e :
  unclaimed_parts (part_group_names db0) db0 = done ++ part :: todo →
  for_all (part_body regex_search now (load_rules db0)) done (start db0) = Ok s →
  part_body regex_search now (load_rules db0) part s = Raise e →
  process regex_search now db0 = Raise e.
Proof.
  intros Hstream Hdone Hpart. unfold process.
  rewrite Hstream, for_all_app, Hdone. simpl. by rewrite Hpart.
Qed.

Lemma throw_ends_the_part now all_regex part before reg after (s s1 : Run S) e :
  relevant_regex part all_regex = before ++ reg :: after →
  passes (rule_body regex_search now part) before
    (mk_run (binaries s) (orphan_binaries s) (count s) (total_processed s + 1)
       (total_binaries s) (db s) (log s) (saves s) (filed s)) s1 →
  rule_body regex_search now part reg s1 = Throw e →
  part_body regex_search now all_regex part s = Raise e.
Proof.
  intros Hrel Hp Hthrow. unfold part_body.
  rewrite Hrel, (passes_for_each _ _ _ _ _ Hp), for_each_cons, Hthrow. done.
Qed.

(** C10, amended.  A part count that is still malformed after the
    normal form is not passed through.  [aggregate] raises ValueError
    exactly when the count does not split in two at the slash, or when
    its total is no number and the name is not yet in the accumulation;
    in every other case it files the part, and when the name is already
    in the accumulation it does so without reading the total.  Nothing
    handles the exception: the run ends at that part, and neither the
    parts after it are processed nor is anything saved. *)
Theorem malformed_part_count_ends_the_run :
  (∀ reg part name parts (s : Run S),
     aggregate reg part name parts s = Throw ValueError
     ↔ malformed (binaries s) name parts)
  ∧ (∀ reg part name parts (s : Run S),
       ¬ malformed (binaries s) name parts →
       ∃ s', aggregate reg part name parts s = Break s')
  ∧ (∀ reg part name parts (s : Run S) current total b,
       Py.split (normalize_parts parts) "/" = [current; total] →
       binaries s !! name = Some b →
       aggregate reg part name parts s
       = Break (file name current part (Binary.attach current part b) s))
  ∧ (∀ now (db0 : S) done part todo (s s1 : Run S) before reg after e,
       unclaimed_parts (part_group_names db0) db0 = done ++ part :: todo →
       for_all (part_body regex_search now (load_rules db0)) done (start db0) = Ok s →
       relevant_regex part (load_rules db0) = before ++ reg :: after →
       passes (rule_body regex_search now part) before
         (mk_run (binaries s) (orphan_binaries s) (count s) (total_processed s + 1)
            (total_binaries s) (db s) (log s) (saves s) (filed s)) s1 →
       rule_body regex_search now part reg s1 = Throw e →
       process regex_search now db0 = Raise e).
Proof.
  split; [apply aggregate_throws|]. split; [|split].
  - intros reg part name parts s Hwell.
    pose proof (aggregate_inv reg part name parts s) as Hinv.
    destruct (aggregate reg part name parts s) as [|s'|e] eqn:Hagg; [done|by eauto|].
    subst e. by apply aggregate_throws in Hagg.
  - intros reg part name parts s current total b Hsplit Hl.
    unfold aggregate. by rewrite Hsplit, Hl.
  - intros now db0 done part todo s s1 before reg after e Hstream Hdone Hrel Hp Hthrow.
    eapply raise_ends_the_run; [done..|].
    by eapply throw_ends_the_part.
Qed.
End Malformed.

(** ** Broken rules *)

Section BrokenRule.
Context {S : Type} `{!Storage S}.
Variable regex_search : string → string → bool → search_result.

(** C2.  When the engine raises on the pattern of a rule, the handler
    of lines 103-106 does not remove the rule and go on: line 105 raises
    in its turn, and nothing handles that.  The turn of the rule raises,
    whatever the state of the run, and so does the run: the rules after
    it are not tried on the part, the parts after it are not processed,
    and [save] is not called. *)
Theorem broken_rule_stops_the_run (now : Z) (db0 : S) (done todo : list Part.t)
    (part : Part.t) (s s1 : Run S) (before after : list relevant) (reg : Regex.t) :
  unclaimed_parts (part_group_names db0) db0 = done ++ part :: todo →
  for_all (part_body regex_search now (load_rules db0)) done (start db0) = Ok s →
  relevant_regex part (load_rules db0) = before ++ Rule reg :: after →
  passes (rule_body regex_search now part) before
    (mk_run (binaries s) (orphan_binaries s) (count s) (total_processed s + 1)
       (total_binaries s) (db s) (log s) (saves s) (filed s)) s1 →
  searched regex_search part reg = SearchRaises →
  (∀ s0 : Run S, rule_body regex_search now part (Rule reg) s0 = Throw QueryError)
  ∧ part_body regex_search now (load_rules db0) part s = Raise QueryError
  ∧ process regex_search now db0 = Raise QueryError.
Proof.
  intros Hstream Hdone Hrel Hp Hraises.
  assert (∀ s0 : Run S, rule_body regex_search now part (Rule reg) s0 = Throw QueryError)
    as Hturn by (intros s0; by rewrite rule_body_rule, Hraises).
  assert (part_body regex_search now (load_rules db0) part s = Raise QueryError) as Hpart
    by (eapply throw_ends_the_part; [done..|apply Hturn]).
  split; [done|]. split; [done|]. by eapply raise_ends_the_run.
Qed.
End BrokenRule.

Lemma broken_rule_stops_the_run_witness :
  unclaimed_parts (part_group_names Fixture.broken_rule_store) Fixture.broken_rule_store
  = [] ++ Fixture.part_x :: []
  ∧ searched Fixture.search Fixture.part_x Fixture.broken_rule = SearchRaises
  ∧ (∀ s0 : Run Store.t,
       rule_body Fixture.search 0 Fixture.part_x (Rule Fixture.broken_rule) s0
       = Throw QueryError)
  ∧ part_body Fixture.search 0 (load_rules Fixture.broken_rule_store) Fixture.part_x
      (start Fixture.broken_rule_store) = Raise QueryError
  ∧ process Fixture.search 0 Fixture.broken_rule_store = Raise QueryError.
Proof.
  assert (unclaimed_parts (part_group_names Fixture.broken_rule_store)
            Fixture.broken_rule_store = [] ++ Fixture.part_x :: []) as Hstream
    by reflexivity.
  assert (for_all (part_body Fixture.search 0 (load_rules Fixture.broken_rule_store)) []
            (start Fixture.broken_rule_store) = Ok (start Fixture.broken_rule_store))
    as Hdone by reflexivity.
  assert (relevant_regex Fixture.part_x (load_rules Fixture.broken_rule_store)
          = [] ++ Rule Fixture.broken_rule :: [Rule Fixture.rule_x]) as Hrel
    by reflexivity.
  assert (passes (rule_body Fixture.search 0 Fixture.part_x) []
            (mk_run ∅ [] 0 (0 + 1) 0 Fixture.broken_rule_store [] [] [])
            (mk_run ∅ [] 0 (0 + 1) 0 Fixture.broken_rule_store [] [] [])) as Hp
    by reflexivity.
  assert (searched Fixture.search Fixture.part_x Fixture.broken_rule = SearchRaises)
    as Hraises by reflexivity.
  split; [exact Hstream|]. split; [exact Hraises|].
  exact (broken_rule_stops_the_run Fixture.search 0 Fixture.broken_rule_store [] []
           Fixture.part_x (start Fixture.broken_rule_store) _ [] [Rule Fixture.rule_x]
           Fixture.broken_rule Hstream Hdone Hrel Hp Hraises).
Defined.

(** The rule after the broken one would have filed the part: without the
    broken rule the run ends and the part is claimed. *)
Example broken_rule_left_out :
  ∃ r, process Fixture.search 0
         (Store.mk [Fixture.part_x] [Fixture.rule_x] [] 1) = Ok r
       ∧ log r = [InfoProcessed 1 1]
       ∧ Part.binary_id <$> Store.part_table (db r) = [Some 1].
Proof. eexists. split; [vm_compute; reflexivity|]. done. Qed.

(** The claim as worded fails on a part count of three fields: the run
    does not complete. *)
Lemma three_fields_stop_the_run :
  ¬ ∃ r, process Fixture.search 0 Fixture.three_field_store = Ok r.
Proof.
  assert (process Fixture.search 0 Fixture.three_field_store = Raise ValueError) as Hrun
    by (vm_compute; reflexivity).
  intros [r Hr]. by rewrite Hrun in Hr.
Qed.

Example bad_total_stops_the_run :
  process Fixture.search 0 Fixture.bad_total_store = Raise ValueError.
Proof. vm_compute. reflexivity. Qed.

Example late_bad_total_passes :
  ∃ r b, process Fixture.search 0 Fixture.late_bad_total_store = Ok r
         ∧ binaries r !! "foo" = Some b
         ∧ Binary.total_parts b = 2
         ∧ Part.id <$> Binary.parts b = {[ "1" := 1; "2" := 2 ]}.
Proof. eexists _, _. split; [vm_compute; reflexivity|]. done. Qed.

(** ** Running twice *)

(** The claim as worded fails when a part is posted twice: the second
    copy takes the place of the first in the accumulation, only the second
    is claimed, and the next run claims the first. *)
Lemma repost_is_claimed_by_second_run :
  ¬ idempotent_on Fixture.search 0 Fixture.repost_store.
Proof.
  intros Hidem.
  assert (∃ r1 r2, process Fixture.search 0 Fixture.repost_store = Ok r1
                   ∧ process Fixture.search 0 (db r1) = Ok r2
                   ∧ Part.binary_id <$> Store.part_table (db r1) = [None; Some 1]
                   ∧ Part.binary_id <$> Store.part_table (db r2) = [Some 1; Some 1])
    as (r1 & r2 & H1 & H2 & Hfirst & Hsecond).
  { eexists _, _. split; [vm_compute; reflexivity|].
    split; [vm_compute; reflexivity|]. done. }
  destruct (Hidem r1 r2 H1 H2) as [Hparts _].
  rewrite Hparts, Hfirst in Hsecond. done.
Qed.

Section Quiet.
Context {S : Type} `{!Storage S}.
Variable regex_search : string → string → bool → search_result.

(** Whether [accept] goes on to the next rule does not depend on the
    run. *)
Lemma accept_next now reg part groupdict (s s' s0 : Run S) :
  accept now reg part groupdict s = Next s' →
  accept now reg part groupdict s0 = Next s0.
Proof.
  unfold accept.
  destruct (negb (truthy (get (fill_name _) "name"))) eqn:Hname; [done|].
  set (fields := find_parts _ _).
  assert (truthy (get fields "name") = true) as Hn.
  { unfold fields. rewrite find_parts_name. by destruct (truthy _). }
  destruct (negb (truthy (get fields "parts")) && three_hours_old _ _).
  - rewrite get_insert_ne, get_insert_eq, Hn by done. simpl.
    match goal with |- context [aggregate ?r ?p ?n ?q (add_orphan ?m s)] =>
      pose proof (aggregate_inv r p n q (add_orphan m s)) as Hagg;
      destruct (aggregate r p n q (add_orphan m s)) end; done.
  - destruct (truthy _ && truthy _); [|done].
    match goal with |- context [aggregate ?r ?p ?n ?q s] =>
      pose proof (aggregate_inv r p n q s) as Hagg;
      destruct (aggregate r p n q s) end; done.
Qed.

(** What a breaking turn files, and under which binary. *)
Lemma rule_body_files now part reg (s s' : Run S) :
  rule_body regex_search now part reg s = Break s' →
  ∃ name current b,
    binaries s' = <[name := b]> (binaries s)
    ∧ filed s' = filed s ++ [(name, current, part)]
    ∧ db s' = db s ∧ count s' = count s
    ∧ match binaries s !! name with
      | Some b0 => b = Binary.attach current part b0
      | None => Binary.name b = name ∧ Binary.parts b = {[current := part]}
      end.
Proof.
  intros Hb. pose proof (rule_body_inv regex_search now part reg s) as Hinv.
  rewrite Hb in Hinv.
  destruct Hinv as (r & name & parts & s0 & -> & Hs0 & Hagg).
  apply aggregate_break in Hagg as (current & total & _ & Hagg).
  assert (binaries s0 = binaries s ∧ filed s0 = filed s ∧ count s0 = count s
          ∧ db s0 = db s) as (Hbin & Hfiled & Hc & Hdb) by by destruct Hs0 as [-> | ->].
  rewrite <-Hbin, <-Hfiled, <-Hc, <-Hdb.
  destruct Hagg as [(b & Hlook & ->)|(Hlook & n & _ & ->)].
  - exists name, current, (Binary.attach current part b). by rewrite Hlook.
  - eexists name, current, _. by rewrite Hlook.
Qed.

Lemma rule_body_next_any now part reg (s s' s0 : Run S) :
  rule_body regex_search now part (Rule reg) s = Next s' →
  searched regex_search part reg ≠ SearchRaises →
  rule_body regex_search now part (Rule reg) s0 = Next s0.
Proof.
  rewrite !rule_body_rule.
  destruct (searched regex_search part reg) as [| |groupdict]; [done|done|].
  case_bool_decide; [done|]. intros Hacc _. by eapply accept_next.
Qed.
End Quiet.

Section TwoRuns.
Variable regex_search : string → string → bool → search_result.

(** The loop over the rules for one part leaves the store alone, and
    either the part is passed over with nothing changed, or it is
    filed. *)
Lemma rule_loop now part all_regex (s s' : Run Store.t) :
  for_each (rule_body regex_search now part) (relevant_regex part all_regex) s = Ok s' →
  db s' = db s ∧ count s' = count s
  ∧ ((binaries s' = binaries s ∧ filed s' = filed s
      ∧ passed_over regex_search now all_regex part)
     ∨ ∃ name current b,
         binaries s' = <[name := b]> (binaries s)
         ∧ filed s' = filed s ++ [(name, current, part)]
         ∧ match binaries s !! name with
           | Some b0 => b = Binary.attach current part b0
           | None => Binary.name b = name ∧ Binary.parts b = {[current := part]}
           end).
Proof.
  revert s. induction all_regex as [|reg all_regex IH]; intros s.
  - intros [= <-]. split; [done|]. split; [done|]. left.
    split; [done|]. split; [done|]. by intros reg' ?%elem_of_nil.
  - unfold relevant_regex. rewrite fmap_cons. fold (relevant_regex part all_regex).
    rewrite for_each_cons.
    destruct (in_scope part reg) eqn:Hscope; [|done].
    destruct (rule_body regex_search now part (Rule reg) s) as [s1|s1|e] eqn:Hturn;
      [| |done].
    + intros Hrest. destruct (IH s1 Hrest) as (Hdb & Hc & Hout).
      assert (s1 = s ∧ quiet regex_search now part reg) as [-> Hq].
      { pose proof (rule_body_inv regex_search now part (Rule reg) s) as Hinv.
        rewrite Hturn in Hinv. split; [done|]. intros s0.
        eapply rule_body_next_any; [done|]. intros Hraises.
        by rewrite rule_body_rule, Hraises in Hturn. }
      split; [done|]. split; [done|].
      destruct Hout as [(Hb & Hf & Hpassed)|(name & current & b & Hb & Hf & Hwhich)].
      * left. split; [done|]. split; [done|].
        intros reg' [->|Hin]%elem_of_cons; [done|by apply Hpassed].
      * right. by exists name, current, b.
    + intros [= <-].
      apply rule_body_files in Hturn as (name & current & b & Hb & Hf & Hdb & Hc & Hwhich).
      split; [done|]. split; [done|]. right. by exists name, current, b.
Qed.

Lemma keys_app fl1 fl2 : keys (fl1 ++ fl2) = keys fl1 ++ keys fl2.
Proof. apply fmap_app. Qed.

(** Filing one more part keeps the parts attached, as long as its key
    is new. *)
Lemma attached_file (s s' : Run Store.t) name current part b :
  binaries s' = <[name := b]> (binaries s) →
  filed s' = filed s ++ [(name, current, part)] →
  match binaries s !! name with
  | Some b0 => b = Binary.attach current part b0
  | None => Binary.name b = name ∧ Binary.parts b = {[current := part]}
  end →
  NoDup (keys (filed s')) → attached s → attached s'.
Proof.
  intros Hb Hf Hwhich Hnodup Hatt name0 current0 part0.
  rewrite Hf, Hb. rewrite Hf, keys_app in Hnodup.
  apply NoDup_app in Hnodup as (_ & Hfresh & _).
  intros [Hold|Hnew%list_elem_of_singleton]%elem_of_app.
  - destruct (Hatt _ _ _ Hold) as (b0 & Hl0 & Hp0).
    destruct (decide (name0 = name)) as [->|Hne].
    + rewrite Hl0 in Hwhich. subst b. exists (Binary.attach current part b0).
      rewrite lookup_insert_eq. split; [done|]. simpl.
      rewrite lookup_insert_ne; [done|]. intros ->.
      apply (Hfresh (name, current0)).
      * apply list_elem_of_fmap. by exists (name, current0, part0).
      * apply list_elem_of_here.
    + exists b0. by rewrite lookup_insert_ne.
  - injection Hnew as -> -> ->. exists b. rewrite lookup_insert_eq. split; [done|].
    destruct (binaries s !! name) as [b0|].
    + subst b. simpl. apply lookup_insert_eq.
    + destruct Hwhich as [_ ->]. apply lookup_singleton_eq.
Qed.

Lemma well_named_file (B : gmap string Binary.t) name current part b :
  match B !! name with
  | Some b0 => b = Binary.attach current part b0
  | None => Binary.name b = name ∧ Binary.parts b = {[current := part]}
  end →
  well_named B → well_named (<[name := b]> B).
Proof.
  intros Hwhich Hwn name0 b0. destruct (decide (name0 = name)) as [->|Hne].
  - rewrite lookup_insert_eq. intros [= <-].
    destruct (B !! name) as [b1|] eqn:Hl; [|by destruct Hwhich].
    subst b. simpl. by apply Hwn.
  - rewrite lookup_insert_ne by done. apply Hwn.
Qed.

(** One turn of the loop over the parts, below the threshold. *)
Lemma part_turn now all_regex part (s s' : Run Store.t) :
  part_body regex_search now all_regex part s = Ok s' → count s = 0 →
  db s' = db s ∧ count s' = 0
  ∧ ((binaries s' = binaries s ∧ filed s' = filed s
      ∧ passed_over regex_search now all_regex part)
     ∨ ∃ name current b,
         binaries s' = <[name := b]> (binaries s)
         ∧ filed s' = filed s ++ [(name, current, part)]
         ∧ match binaries s !! name with
           | Some b0 => b = Binary.attach current part b0
           | None => Binary.name b = name ∧ Binary.parts b = {[current := part]}
           end).
Proof.
  unfold part_body. intros Hp Hc.
  destruct (for_each _ _ _) as [s1|] eqn:Hloop; [|done]. simpl in Hp.
  apply rule_loop in Hloop as (Hsh & Hc1 & Hout). simpl in *.
  rewrite Hc1, Hc in Hp. change (CHUNK_SIZE <=? 0) with false in Hp.
  injection Hp as <-. split; [done|]. split; [congruence|done].
Qed.

(** The loop over the parts, below the threshold. *)
Lemma parts_loop now all_regex parts (s s' : Run Store.t) :
  for_all (part_body regex_search now all_regex) parts s = Ok s' →
  count s = 0 → well_named (binaries s) →
  db s' = db s ∧ count s' = 0 ∧ well_named (binaries s')
  ∧ (∃ new, filed s' = filed s ++ new)
  ∧ (∀ part, part ∈ parts →
       (∃ name current, (name, current, part) ∈ filed s')
       ∨ passed_over regex_search now all_regex part)
  ∧ (NoDup (keys (filed s')) → attached s → attached s').
Proof.
  revert s. induction parts as [|part parts IH]; intros s.
  - intros [= <-] Hc Hwn. split; [done|]. split; [done|]. split; [done|].
    split; [exists []; by rewrite app_nil_r|]. split; [|done].
    by intros part ?%elem_of_nil.
  - simpl. destruct (part_body _ _ _ _ s) as [s1|] eqn:Hturn; [|done]. simpl.
    intros Hrest Hc Hwn.
    destruct (part_turn _ _ _ _ _ Hturn Hc) as (Hsh1 & Hc1 & Hout).
    assert (well_named (binaries s1)) as Hwn1.
    { destruct Hout as [(-> & _)|(name & current & b & -> & _ & Hwhich)]; [done|].
      by eapply well_named_file. }
    destruct (IH s1 Hrest Hc1 Hwn1) as (Hsh & Hc' & Hwn' & [new Hnew] & Hparts & Hatt).
    assert (∃ new1, filed s1 = filed s ++ new1) as [new1 Hnew1].
    { destruct Hout as [(_ & -> & _)|(name & current & b & _ & -> & _)];
        [exists []; by rewrite app_nil_r|by eexists]. }
    split; [congruence|]. split; [done|]. split; [done|].
    split; [exists (new1 ++ new); by rewrite Hnew, Hnew1, app_assoc|].
    split.
    + intros part' [->|Hin]%elem_of_cons; [|by apply Hparts].
      destruct Hout as [(_ & _ & Hpassed)|(name & current & b & _ & Hf & _)].
      * by right.
      * left. exists name, current. rewrite Hnew, Hf.
        apply elem_of_app. left. apply elem_of_app. right. apply list_elem_of_here.
    + intros Hnodup Hatt0. apply Hatt; [done|].
      destruct Hout as [(Hb & Hf & _)|(name & current & b & Hb & Hf & Hwhich)].
      * intros name0 current0 part0. rewrite Hf, Hb. apply Hatt0.
      * eapply attached_file; [done..| |done].
        rewrite Hnew, keys_app in Hnodup. by apply NoDup_app in Hnodup as (? & _).
Qed.

(** *** What [save] does to the tables *)

Lemma update_tables us st :
  Store.regex_table (Store.update us st) = Store.regex_table st
  ∧ Store.binary_table (Store.update us st) = Store.binary_table st
  ∧ Store.next_binary_id (Store.update us st) = Store.next_binary_id st
  ∧ Part.group_name <$> Store.part_table (Store.update us st)
    = Part.group_name <$> Store.part_table st
  ∧ ∀ part, part ∈ Store.part_table (Store.update us st) →
      Part.binary_id part = None →
      part ∈ Store.part_table st ∧ Part.id part ∉ us.*1.
Proof.
  revert st. induction us as [|u us IH]; intros st.
  - repeat split; try done. apply not_elem_of_nil.
  - unfold Store.update. simpl. fold (Store.update us (Store.update_one st u)).
    destruct (IH (Store.update_one st u)) as (Hr & Hb & Hn & Hg & Hparts).
    split; [by rewrite Hr|]. split; [by rewrite Hb|]. split; [by rewrite Hn|].
    split.
    + rewrite Hg. simpl. rewrite <-list_fmap_compose. apply list_fmap_ext.
      intros i part _. simpl. by case_bool_decide.
    + intros part Hin Hnone. destruct (Hparts part Hin Hnone) as [Hin1 Hnot].
      simpl in Hin1. apply list_elem_of_fmap in Hin1 as (part0 & Heq & Hin0).
      case_bool_decide as Hid; [by subst part|]. subst part0.
      split; [done|]. apply not_elem_of_cons. done.
Qed.

Lemma insert_tables bs st :
  Store.part_table (Store.insert bs st) = Store.part_table st
  ∧ Store.regex_table (Store.insert bs st) = Store.regex_table st
  ∧ (∀ row, row ∈ Store.binary_table st → row ∈ Store.binary_table (Store.insert bs st))
  ∧ ∀ b, b ∈ bs →
      ∃ row, row ∈ Store.binary_table (Store.insert bs st)
             ∧ BinaryRow.name row = Binary.name b.
Proof.
  revert st. induction bs as [|b bs IH]; intros st.
  - repeat split; try done. by intros b ?%elem_of_nil.
  - unfold Store.insert. simpl. fold (Store.insert bs (Store.insert_one st b)).
    destruct (IH (Store.insert_one st b)) as (Hp & Hr & Hold & Hnew).
    split; [by rewrite Hp|]. split; [by rewrite Hr|]. split.
    + intros row Hin. apply Hold. simpl. apply elem_of_app. by left.
    + intros b' [->|Hin]%elem_of_cons; [|by apply Hnew].
      exists (BinaryRow.of_binary (Store.next_binary_id st) b). split; [|done].
      apply Hold. simpl. apply elem_of_app. right. apply list_elem_of_here.
Qed.

Lemma named_elem names st bid name :
  (bid, name) ∈ Store.named names st ↔
  name ∈ names ∧ ∃ row, row ∈ Store.binary_table st
                        ∧ BinaryRow.id row = bid ∧ BinaryRow.name row = name.
Proof.
  unfold Store.named. rewrite list_elem_of_fmap. split.
  - intros (row & [= -> ->] & [Hn Hin]%list_elem_of_filter). eauto.
  - intros (Hn & row & Hin & <- & <-). exists row. split; [done|].
    by apply list_elem_of_filter.
Qed.

(** After the insert, the second query finds every name of the
    accumulation. *)
Lemma second_query_resolves (B : gmap string Binary.t) (st : Store.t) name b :
  well_named B → B !! name = Some b →
  is_Some (found_second (save_steps B st) !! name).
Proof.
  intros Hwn Hl. pose proof (inserted_elem B st) as Hins.
  apply not_eq_None_Some. rewrite save_steps_eq in *. simpl in *.
  rewrite existing_binaries_none. intros Hnot. apply Hnot. clear Hnot.
  set (inserts := (filter _ (map_to_list B)).*2) in *.
  destruct (insert_tables inserts st) as (_ & _ & Hold & Hnew).
  assert (name ∈ (map_to_list B).*1) as Hkey.
  { apply list_elem_of_fmap. exists (name, b). split; [done|]. by apply elem_of_map_to_list. }
  assert (∃ row, row ∈ Store.binary_table (Store.insert inserts st)
                 ∧ BinaryRow.name row = name) as (row & Hin & Hname).
  { destruct (decide (name ∈ (binaries_named (map_to_list B).*1 st).*2)) as [Hfound|Hmiss].
    - apply list_elem_of_fmap in Hfound as ([bid name'] & Heq & Hrow). simpl in Heq.
      subst name'. apply named_elem in Hrow as (_ & row & Hin & _ & Hname).
      exists row. split; [by apply Hold|done].
    - destruct (Hnew b) as (row & Hin & Hname).
      + apply Hins. by exists name.
      + exists row. split; [done|]. rewrite Hname. by apply Hwn. }
  apply list_elem_of_fmap. exists (BinaryRow.id row, name). split; [done|].
  apply named_elem. split; [done|]. by exists row.
Qed.

(** Every part attached in the accumulation is named in an update. *)
Lemma attached_part_updated (B : gmap string Binary.t) (st : Store.t) name b current part :
  well_named B → B !! name = Some b → Binary.parts b !! current = Some part →
  Part.id part ∈ (updated (save_steps B st)).*1.
Proof.
  intros Hwn Hl Hp. destruct (second_query_resolves B st name b Hwn Hl) as [row Hrow].
  rewrite save_steps_eq in *. simpl in *.
  apply list_elem_of_fmap. exists (Part.id part, row.1). split; [done|].
  apply list_elem_of_bind. exists (name, b). split; [|by apply elem_of_map_to_list].
  unfold updates_for. simpl. rewrite Hrow.
  apply list_elem_of_fmap. exists (current, part). split; [done|].
  by apply elem_of_map_to_list.
Qed.

(** A part that [save] leaves unclaimed was unclaimed before, and is
    attached to no binary of the accumulation; the groups and the rules
    are as before. *)
Lemma save_tables (B : gmap string Binary.t) (st : Store.t) :
  well_named B →
  Store.regex_table (save B st).1 = Store.regex_table st
  ∧ Part.group_name <$> Store.part_table (save B st).1
    = Part.group_name <$> Store.part_table st
  ∧ ∀ part, part ∈ Store.part_table (save B st).1 → Part.binary_id part = None →
      part ∈ Store.part_table st
      ∧ ∀ name b current part',
          B !! name = Some b → Binary.parts b !! current = Some part' →
          Part.id part' ≠ Part.id part.
Proof.
  intros Hwn. unfold save. simpl.
  assert (stored (save_steps B st)
          = Store.update (updated (save_steps B st))
              (Store.insert (inserted (save_steps B st)) st)) as ->
    by by rewrite save_steps_eq.
  set (us := updated (save_steps B st)).
  set (bs := inserted (save_steps B st)).
  destruct (update_tables us (Store.insert bs st)) as (Hr & _ & _ & Hg & Hparts).
  destruct (insert_tables bs st) as (Hp' & Hr' & _).
  split; [by rewrite <-Hr' |]. split; [by rewrite <-Hp'|].
  intros part Hin Hnone. destruct (Hparts part Hin Hnone) as [Hin0 Hnot].
  split; [by rewrite <-Hp'|].
  intros name b current part' Hl Hp Hid. apply Hnot. rewrite <-Hid.
  by eapply attached_part_updated.
Qed.

(** *** A run in which every turn is quiet *)

Lemma quiet_rule_loop now part all_regex (s : Run Store.t) :
  (∀ reg, reg ∈ all_regex → in_scope part reg = true ∧ quiet regex_search now part reg) →
  for_each (rule_body regex_search now part) (relevant_regex part all_regex) s = Ok s.
Proof.
  induction all_regex as [|reg all_regex IH]; intros Hq; [done|].
  unfold relevant_regex. rewrite fmap_cons. fold (relevant_regex part all_regex).
  destruct (Hq reg) as [-> Hquiet]; [apply list_elem_of_here|].
  rewrite for_each_cons, (Hquiet s). apply IH.
  intros reg' Hin. apply Hq. by apply list_elem_of_further.
Qed.

Lemma quiet_part_turn now all_regex part (s : Run Store.t) :
  (∀ reg, reg ∈ all_regex → in_scope part reg = true ∧ quiet regex_search now part reg) →
  count s = 0 →
  part_body regex_search now all_regex part s
  = Ok (mk_run (binaries s) (orphan_binaries s) (count s) (total_processed s + 1)
          (total_binaries s) (db s) (log s) (saves s) (filed s)).
Proof.
  intros Hq Hc. unfold part_body. rewrite quiet_rule_loop by done.
  simpl. rewrite Hc. done.
Qed.

Lemma quiet_parts_loop now all_regex parts (s : Run Store.t) :
  (∀ part reg, part ∈ parts → reg ∈ all_regex →
     in_scope part reg = true ∧ quiet regex_search now part reg) →
  count s = 0 →
  ∃ s', for_all (part_body regex_search now all_regex) parts s = Ok s'
        ∧ binaries s' = binaries s ∧ db s' = db s ∧ filed s' = filed s
        ∧ saves s' = saves s ∧ orphan_binaries s' = orphan_binaries s
        ∧ count s' = 0.
Proof.
  revert s. induction parts as [|part parts IH]; intros s Hq Hc; [by exists s|].
  change (for_all ?f (part :: parts) s) with (a' ← f part s; for_all f parts a').
  rewrite quiet_part_turn; [|intros reg Hin; apply Hq; [apply list_elem_of_here|done]|done].
  simpl.
  match goal with |- context [for_all _ parts ?s1] =>
    destruct (IH s1) as (s' & Hs' & Hb & Hdb & Hf & Hsv & Ho & Hc') end.
  - intros part' reg Hin. apply Hq. by apply list_elem_of_further.
  - done.
  - exists s'. by rewrite Hs'.
Qed.

Lemma load_rules_elem_of (st : Store.t) reg :
  reg ∈ load_rules st ↔
  reg ∈ Store.regex_table st ∧ Regex.group_name reg ∈ Store.group_names st ++ [".*"].
Proof.
  unfold load_rules. simpl. unfold Store.rules_in.
  rewrite merge_sort_Permutation, list_elem_of_filter. tauto.
Qed.

Lemma finish_fields (s : Run Store.t) :
  db (finish s) = (save (binaries s) (db s)).1
  ∧ filed (finish s) = filed s ∧ binaries (finish s) = binaries s.
Proof. unfold finish. by destruct (save _ _). Qed.

(** C6, amended.  With the clock held at the same reading, take a first
    run that ends and in which the parts that were filed have pairwise
    distinct pairs of name and index, so that none took the place of
    another in the accumulation.  Then a second run over the store that
    the first run left finds nothing to do: its loop over the parts ends
    without filing any part and without touching the store, so that
    the accumulation it hands to the last [save] is empty, and [save] in
    its turn has no binary to insert and no part to update. *)
Theorem second_run_files_nothing (now : Z) (st : Store.t) (r1 : Run Store.t) :
  process regex_search now st = Ok r1 →
  NoDup (keys (filed r1)) →
  ∃ s2, for_all (part_body regex_search now (load_rules (db r1)))
          (unclaimed_parts (part_group_names (db r1)) (db r1)) (start (db r1)) = Ok s2
        ∧ filed s2 = [] ∧ binaries s2 = ∅ ∧ orphan_binaries s2 = []
        ∧ db s2 = db r1 ∧ saves s2 = []
        ∧ inserted (save_steps (binaries s2) (db s2)) = []
        ∧ updated (save_steps (binaries s2) (db s2)) = [].
Proof.
  unfold process at 1.
  destruct (for_all _ _ (start st)) as [s1|] eqn:Hloop; [|done]. simpl.
  intros [= <-] Hnodup.
  destruct (finish_fields s1) as (Hdb1 & Hfiled1 & _).
  rewrite Hfiled1 in Hnodup. set (db1 := db (finish s1)) in *.
  destruct (parts_loop now _ _ _ _ Hloop) as (Hsame & _ & Hwn & _ & Hparts & Hatt);
    [done|intros name b Hl; simpl in Hl; by rewrite lookup_empty in Hl|].
  assert (attached s1) as Hattached.
  { apply Hatt; [done|]. by intros name current part ?%elem_of_nil. }
  simpl in Hsame.
  destruct (save_tables (binaries s1) (db s1) Hwn) as (Hr & Hg & Hunclaimed).
  rewrite <-Hdb1 in Hr, Hg, Hunclaimed. rewrite Hsame in Hr, Hg, Hunclaimed.
  assert (Store.group_names db1 = Store.group_names st) as Hgroups
    by (unfold Store.group_names; by rewrite Hg).
  set (all_regex := load_rules st) in *.
  destruct (quiet_parts_loop now (load_rules db1)
              (unclaimed_parts (part_group_names db1) db1) (start db1))
    as (s2 & Hs2 & Hb2 & Hdb2 & Hf2 & Hsv2 & Ho2 & _); [|done|].
  { intros part reg Hpart Hreg. simpl in Hpart. unfold Store.unclaimed_in in Hpart.
    apply list_elem_of_filter in Hpart as [[Hgroup Hnone] Hin].
    destruct (Hunclaimed part Hin Hnone) as [Hin0 Hfree].
    apply load_rules_elem_of in Hreg as [Hreg1 Hscope]. rewrite Hgroups in Hgroup, Hscope.
    assert (reg ∈ all_regex) as Hreg0.
    { apply load_rules_elem_of. split; [|done]. by rewrite <-Hr. }
    destruct (Hparts part) as [(name & current & Hfiled)|Hpassed].
    - simpl. apply list_elem_of_filter. done.
    - destruct (Hattached _ _ _ Hfiled) as (b & Hl & Hp).
      by destruct (Hfree name b current part Hl Hp).
    - by apply Hpassed. }
  exists s2. split; [done|]. rewrite Hb2, Hdb2, Hf2, Hsv2, Ho2. by repeat split.
Qed.
End TwoRuns.

Lemma second_run_files_nothing_witness :
  process Fixture.search 0 Fixture.tidy_store = Ok Fixture.tidy_run
  ∧ NoDup (keys (filed Fixture.tidy_run))
  ∧ ∃ s2, for_all (part_body Fixture.search 0 (load_rules (db Fixture.tidy_run)))
            (unclaimed_parts (part_group_names (db Fixture.tidy_run)) (db Fixture.tidy_run))
            (start (db Fixture.tidy_run)) = Ok s2
          ∧ filed s2 = [] ∧ binaries s2 = ∅ ∧ orphan_binaries s2 = []
          ∧ db s2 = db Fixture.tidy_run ∧ saves s2 = []
          ∧ inserted (save_steps (binaries s2) (db s2)) = []
          ∧ updated (save_steps (binaries s2) (db s2)) = [].
Proof.
  assert (process Fixture.search 0 Fixture.tidy_store = Ok Fixture.tidy_run) as Hrun
    by (vm_compute; reflexivity).
  assert (NoDup (keys (filed Fixture.tidy_run))) as Hkeys
    by (apply (bool_decide_unpack _); vm_compute; exact I).
  split; [exact Hrun|]. split; [exact Hkeys|].
  exact (second_run_files_nothing Fixture.search 0 Fixture.tidy_store Fixture.tidy_run
           Hrun Hkeys).
Defined.

Example tidy_first_run :
  filed Fixture.tidy_run
  = [("foo", "1", Fixture.part 1 "alt.x" "foo 1/2" 0);
     ("foo", "2", Fixture.part 2 "alt.x" "foo 2/2" 0)]
  ∧ Part.binary_id <$> Store.part_table (db Fixture.tidy_run) = [Some 1; Some 1; None].
Proof. split; vm_compute; reflexivity. Qed.

(** ** Cross-references *)

Example parse_xref_ex :
  parse_xref "news.example.com alt.binaries.test:1234 alt.Binaries_x-y:5  a:b :1 c:"
  = ["alt.binaries.test"; "alt.Binaries_x-y"; "c"]
  ∧ parse_xref "" = [].
Proof. done. Qed.

Section Xref.
Lemma append_foldl_omap {A B} (f : A → option B) (xs : list A) (acc : list B) :
  foldl (λ groups x, match f x with Some g => groups ++ [g] | None => groups end) acc xs
  = acc ++ omap f xs.
Proof.
  revert acc. induction xs as [|x xs IH]; intros acc; simpl.
  - by rewrite app_nil_r.
  - rewrite IH. destruct (f x); [|done]. by rewrite <-app_assoc.
Qed.

(** The loop of lines 191-194 keeps, in order, the tokens that fit. *)
Lemma parse_xref_omap xref : parse_xref xref = omap xref_group (Py.split xref " ").
Proof. unfold parse_xref. by rewrite append_foldl_omap. Qed.

Lemma split_app_sep a b c :
  Py.split (a +:+ String c b) c = Py.split a c ++ Py.split b c.
Proof.
  induction a as [|x a IH]; simpl.
  - by rewrite Ascii.eqb_refl.
  - destruct (Ascii.eqb x c); [by rewrite IH|]. rewrite IH.
    destruct (Py.split a c) as [|w ws] eqn:Hs; [|done].
    by destruct (split_nonempty a c).
Qed.

(** A header made of two headers with a space between them gives the
    groups of the first followed by the groups of the second. *)
Theorem parse_xref_space a b :
  parse_xref (a +:+ " " +:+ b) = parse_xref a ++ parse_xref b.
Proof.
  change (a +:+ " " +:+ b) with (a +:+ String " " b).
  by rewrite !parse_xref_omap, split_app_sep, omap_app.
Qed.

Lemma append_cons a s t : String a s +:+ t = String a (s +:+ t).
Proof. done. Qed.

Lemma append_assoc a b c : (a +:+ b) +:+ c = a +:+ (b +:+ c).
Proof. induction a as [|x a IH]; [done|]. by rewrite !append_cons, IH. Qed.

Lemma append_empty_r s : s +:+ EmptyString = s.
Proof. induction s as [|a s IH]; [done|]. by rewrite append_cons, IH. Qed.

Lemma span_chars_spec keep s :
  s = (span_chars keep s).1 +:+ (span_chars keep s).2
  ∧ all_chars keep (span_chars keep s).1 = true
  ∧ match (span_chars keep s).2 with
    | String a _ => keep a = false
    | EmptyString => True
    end.
Proof.
  induction s as [|a s (IH1 & IH2 & IH3)]; simpl; [done|].
  destruct (keep a) eqn:Ha; [|done].
  destruct (span_chars keep s) as [run rest]. simpl in *.
  rewrite Ha, IH2. split; [by rewrite IH1 at 1|done].
Qed.

Lemma span_chars_app keep run rest :
  all_chars keep run = true →
  match rest with String a _ => keep a = false | EmptyString => True end →
  span_chars keep (run +:+ rest) = (run, rest).
Proof.
  intros Hrun Hrest. induction run as [|a run IH]; simpl in *.
  - destruct rest as [|a rest]; [done|]. simpl. by rewrite Hrest.
  - apply andb_true_iff in Hrun as [-> Hrun]. by rewrite IH.
Qed.

(** Which tokens line 192 accepts, and what it takes from them: a name
    made of one or more letters, digits, dots, hyphens and underscores,
    then a colon, then digits or nothing, then nothing or one line
    feed.  The name is returned as written. *)
Lemma xref_group_spec token g :
  xref_group token = Some g ↔
  g ≠ EmptyString ∧ all_chars is_group_char g = true
  ∧ ∃ d, all_chars Py.is_digit d = true
         ∧ (token = g +:+ ":" +:+ d ∨ token = g +:+ ":" +:+ d +:+ line_feed).
Proof.
  unfold xref_group. split.
  - destruct (span_chars_spec is_group_char token) as (Htok & Hrun & _).
    destruct (span_chars is_group_char token) as [[|a run] [|c tail]]; try done.
    simpl in Htok, Hrun.
    destruct c as [[] [] [] [] [] [] [] []]; try done.
    destruct (span_chars_spec Py.is_digit tail) as (Htail & Hd & _).
    destruct (span_chars Py.is_digit tail) as [d rest]. simpl in *.
    intros Hsome. split; [|split].
    + destruct (_ || _) in Hsome; [|done]. by injection Hsome as <-.
    + destruct (_ || _) in Hsome; [|done]. by injection Hsome as <-.
    + exists d. split; [done|].
      destruct (bool_decide (rest = EmptyString)) eqn:H1; simpl in Hsome.
      * apply bool_decide_eq_true in H1. injection Hsome as <-. left.
        rewrite Htok, Htail, H1. simpl. f_equal. f_equal. by rewrite append_empty_r.
      * destruct (bool_decide (rest = line_feed)) eqn:H2; [|done].
        apply bool_decide_eq_true in H2. injection Hsome as <-. right.
        rewrite Htok, Htail, H2. done.
  - intros (Hne & Hg & d & Hd & Htoken).
    assert (∃ rest, token = g +:+ String ":" (d +:+ rest)
                    ∧ (rest = EmptyString ∨ rest = line_feed)) as (rest & -> & Hrest).
    { destruct Htoken as [-> | ->]; [exists EmptyString|exists line_feed].
      - split; [|by left]. simpl. by rewrite append_empty_r.
      - split; [done|by right]. }
    rewrite span_chars_app; [|done|done].
    destruct g as [|a run]; [done|].
    rewrite span_chars_app; [|done|by destruct Hrest as [-> | ->]]. simpl.
    destruct Hrest as [-> | ->]; [by rewrite bool_decide_eq_true_2|].
    rewrite (bool_decide_eq_true_2 (line_feed = line_feed)) by done.
    by rewrite orb_true_r.
Qed.

(** The names that [parse_xref] returns are exactly the names before
    the colon of the tokens, cut at single spaces, that are a name, a
    colon and an article number or none: a token without a colon, with
    an empty name or with anything but digits after the colon gives
    nothing. *)
Theorem parse_xref_groups xref g :
  g ∈ parse_xref xref ↔
  ∃ token d,
    token ∈ Py.split xref " "
    ∧ g ≠ EmptyString ∧ all_chars is_group_char g = true
    ∧ all_chars Py.is_digit d = true
    ∧ (token = g +:+ ":" +:+ d ∨ token = g +:+ ":" +:+ d +:+ line_feed).
Proof.
  rewrite parse_xref_omap, list_elem_of_omap. split.
  - intros (token & Hin & (Hne & Hg & d & Hd & Htoken)%xref_group_spec).
    by exists token, d.
  - intros (token & d & Hin & Hne & Hg & Hd & Htoken). exists token.
    split; [done|]. apply xref_group_spec. eauto.
Qed.
End Xref.

(** ** The pattern of a rule, lines 96-99 *)

Section RulePattern.
Lemma contains_has_char s c : Py.contains s c = Spec.has_char c s.
Proof. unfold Py.contains. rewrite find_none. apply negb_involutive. Qed.

Lemma length_append a b : String.length (a +:+ b) = (String.length a + String.length b)%nat.
Proof. induction a as [|x a IH]; [done|]. rewrite append_cons. simpl. by rewrite IH. Qed.

Lemma len_append a b : Py.len (a +:+ b) = Py.len a + Py.len b.
Proof. unfold Py.len. rewrite length_append. lia. Qed.

Lemma find_from_app c pre rest i :
  Spec.has_char c pre = false →
  Py.find_from c (pre +:+ String c rest) i = i + Py.len pre.
Proof.
  revert i. induction pre as [|x pre IH]; intros i Hno.
  - change (EmptyString +:+ String c rest) with (String c rest). simpl.
    rewrite Ascii.eqb_refl. unfold Py.len. simpl. lia.
  - simpl in Hno. apply orb_false_iff in Hno as [Hx Hno].
    rewrite append_cons. simpl. rewrite Hx, IH by done.
    unfold Py.len. simpl. lia.
Qed.

Lemma rfind_from_none c s i last :
  Spec.has_char c s = false → Py.rfind_from c s i last = last.
Proof.
  revert i. induction s as [|x s IH]; intros i Hno; [done|].
  simpl in *. apply orb_false_iff in Hno as [-> Hno]. by apply IH.
Qed.

Lemma rfind_from_app c a b i last :
  Py.rfind_from c (a +:+ b) i last
  = Py.rfind_from c b (i + Py.len a) (Py.rfind_from c a i last).
Proof.
  revert i last. induction a as [|x a IH]; intros i last.
  - change (EmptyString +:+ b) with b. simpl. f_equal. unfold Py.len. simpl. lia.
  - rewrite append_cons. simpl. rewrite IH. f_equal. unfold Py.len. simpl. lia.
Qed.

Lemma rfind_from_last c a f i last :
  Spec.has_char c f = false →
  Py.rfind_from c (a +:+ String c f) i last = i + Py.len a.
Proof.
  intros Hno. rewrite rfind_from_app. simpl. rewrite Ascii.eqb_refl.
  by apply rfind_from_none.
Qed.

Lemma substring_skip a b k m :
  substring (String.length a + k) m (a +:+ b) = substring k m b.
Proof. induction a as [|x a IH]; [done|]. rewrite append_cons. simpl. apply IH. Qed.

Lemma substring_prefix p r : substring 0 (String.length p) (p +:+ r) = p.
Proof.
  induction p as [|x p IH]; [by destruct r|]. rewrite append_cons. simpl. by rewrite IH.
Qed.

Lemma substring_all s : substring 0 (String.length s) s = s.
Proof. induction s as [|x s IH]; [done|]. simpl. by rewrite IH. Qed.

(** A rule is stored as text, a slash, the pattern, a slash and the
    flags.  When neither the text before the first slash nor the flags
    hold a slash, lines 96-99 recover the pattern as written, slashes
    inside it included, and set [regex.I] exactly when the flags hold the
    letter i; the text before the first slash is ignored. *)
Theorem rule_pattern_recovered (reg : Regex.t) (pre p f : string) :
  Regex.regex reg = pre +:+ "/" +:+ p +:+ "/" +:+ f →
  Py.contains pre "/" = false → Py.contains f "/" = false →
  pattern_of reg = p ∧ ignore_case_of reg = Py.contains f "i".
Proof.
  intros Hreg Hpre Hf. rewrite contains_has_char in Hpre, Hf.
  unfold pattern_of, ignore_case_of. rewrite Hreg.
  change (pre +:+ "/" +:+ p +:+ "/" +:+ f) with (pre +:+ String "/" (p +:+ String "/" f)).
  set (r := pre +:+ String "/" (p +:+ String "/" f)).
  assert (Py.find r "/" = Py.len pre) as Hfind.
  { unfold Py.find, r. rewrite find_from_app by done. lia. }
  assert (Py.rfind r "/" = Py.len pre + 1 + Py.len p) as Hrfind.
  { unfold Py.rfind, r.
    replace (pre +:+ String "/" (p +:+ String "/" f))
      with ((pre +:+ String "/" p) +:+ String "/" f)
      by (by rewrite append_assoc, append_cons).
    rewrite rfind_from_last by done. rewrite len_append. unfold Py.len. simpl. lia. }
  assert (Py.len r = Py.len pre + 1 + Py.len p + 1 + Py.len f) as Hlen.
  { unfold r. rewrite len_append. unfold Py.len at 2. simpl.
    rewrite length_append. simpl. unfold Py.len. lia. }
  assert (0 ≤ Py.len pre ∧ 0 ≤ Py.len p ∧ 0 ≤ Py.len f) as (Hp0 & Hp1 & Hp2)
    by (unfold Py.len; lia).
  rewrite Hfind, Hrfind. split.
  - unfold Py.slice, Py.clamp. rewrite Hlen.
    rewrite !(proj2 (Z.ltb_ge _ _)) by lia. rewrite !Z.min_l by lia.
    replace (Z.to_nat (Py.len pre + 1))
      with (String.length (pre +:+ "/") + 0)%nat
      by (rewrite length_append; unfold Py.len; simpl; lia).
    replace (Z.to_nat (Py.len pre + 1 + Py.len p - (Py.len pre + 1)))
      with (String.length p) by (unfold Py.len; lia).
    unfold r.
    replace (pre +:+ String "/" (p +:+ String "/" f))
      with ((pre +:+ "/") +:+ (p +:+ String "/" f)) by (by rewrite append_assoc).
    rewrite substring_skip. apply substring_prefix.
  - f_equal. unfold Py.slice_from, Py.slice, Py.clamp. rewrite Hlen.
    rewrite !(proj2 (Z.ltb_ge _ _)) by lia. rewrite !Z.min_l by lia.
    replace (Z.to_nat (Py.len pre + 1 + Py.len p + 1))
      with (String.length (pre +:+ String "/" (p +:+ "/")) + 0)%nat.
    2:{ rewrite length_append. simpl. rewrite length_append. unfold Py.len. simpl. lia. }
    replace (Z.to_nat (Py.len pre + 1 + Py.len p + 1 + Py.len f
                       - (Py.len pre + 1 + Py.len p + 1)))
      with (String.length f) by (unfold Py.len; lia).
    unfold r.
    replace (pre +:+ String "/" (p +:+ String "/" f))
      with ((pre +:+ String "/" (p +:+ "/")) +:+ f).
    2:{ rewrite append_assoc, append_cons. f_equal. f_equal. by rewrite append_assoc. }
    by rewrite substring_skip, substring_all.
Qed.

Lemma rule_pattern_recovered_witness :
  Regex.regex (Regex.mk 1 ".*" "x/a/b/i" 0) = "x" +:+ "/" +:+ "a/b" +:+ "/" +:+ "i"
  ∧ Py.contains "x" "/" = false ∧ Py.contains "i" "/" = false
  ∧ pattern_of (Regex.mk 1 ".*" "x/a/b/i" 0) = "a/b"
  ∧ ignore_case_of (Regex.mk 1 ".*" "x/a/b/i" 0) = Py.contains "i" "i".
Proof.
  split; [reflexivity|]. split; [reflexivity|]. split; [reflexivity|].
  apply (rule_pattern_recovered (Regex.mk 1 ".*" "x/a/b/i" 0) "x" "a/b" "i");
    reflexivity.
Defined.

Lemma clamp_inside n i : 0 ≤ i ≤ n → Py.clamp n i = i.
Proof. intros. unfold Py.clamp. rewrite (proj2 (Z.ltb_ge _ _)) by lia. lia. Qed.

Lemma clamp_from_end n i : i < 0 → 0 ≤ i + n → Py.clamp n i = i + n.
Proof. intros. unfold Py.clamp. rewrite (proj2 (Z.ltb_lt _ _)) by lia. lia. Qed.

Lemma substring_zero n s : substring n 0 s = EmptyString.
Proof. revert s. induction n as [|n IH]; intros [|a s]; simpl; auto. Qed.

(** A rule stored without any slash loses its last character: the
    pattern handed to the engine is the text without it, and the whole
    text is read as flags, so the search ignores case as soon as the text
    holds the letter i. *)
Theorem rule_pattern_without_slash (reg : Regex.t) (s : string) (a : ascii) :
  Regex.regex reg = s +:+ String a EmptyString →
  Py.contains (Regex.regex reg) "/" = false →
  pattern_of reg = s ∧ ignore_case_of reg = Py.contains (Regex.regex reg) "i".
Proof.
  intros Hreg Hno. unfold pattern_of, ignore_case_of.
  assert (Py.find (Regex.regex reg) "/" = -1) as ->.
  { unfold Py.contains in Hno. apply negb_false_iff in Hno. by apply Z.eqb_eq. }
  assert (Py.rfind (Regex.regex reg) "/" = -1) as ->.
  { unfold Py.rfind. apply rfind_from_none. by rewrite <-contains_has_char. }
  rewrite Hreg.
  assert (Py.len (s +:+ String a EmptyString) = Py.len s + 1) as Hlen.
  { rewrite len_append. unfold Py.len. simpl. lia. }
  assert (0 ≤ Py.len s) by (unfold Py.len; lia).
  split.
  - unfold Py.slice. rewrite Hlen. change (-1 + 1) with 0.
    rewrite clamp_inside, clamp_from_end by lia.
    replace (Z.to_nat (-1 + (Py.len s + 1) - 0)) with (String.length s)
      by (unfold Py.len; lia).
    apply substring_prefix.
  - f_equal. unfold Py.slice_from, Py.slice. rewrite Hlen. change (-1 + 1) with 0.
    rewrite !clamp_inside by lia.
    replace (Z.to_nat (Py.len s + 1 - 0)) with (String.length (s +:+ String a EmptyString))
      by (rewrite length_append; unfold Py.len; simpl; lia).
    apply substring_all.
Qed.

Lemma rule_pattern_without_slash_witness :
  Regex.regex (Regex.mk 1 ".*" "file" 0) = "fil" +:+ String "e" EmptyString
  ∧ Py.contains (Regex.regex (Regex.mk 1 ".*" "file" 0)) "/" = false
  ∧ pattern_of (Regex.mk 1 ".*" "file" 0) = "fil"
  ∧ ignore_case_of (Regex.mk 1 ".*" "file" 0)
    = Py.contains (Regex.regex (Regex.mk 1 ".*" "file" 0)) "i".
Proof.
  split; [reflexivity|]. split; [reflexivity|].
  apply (rule_pattern_without_slash (Regex.mk 1 ".*" "file" 0) "fil" "e"); reflexivity.
Defined.

(** A rule stored with a single slash has the empty pattern, whatever
    stands before the slash; what follows the slash is read as flags. *)
Theorem rule_pattern_single_slash (reg : Regex.t) (pre f : string) :
  Regex.regex reg = pre +:+ "/" +:+ f →
  Py.contains pre "/" = false → Py.contains f "/" = false →
  pattern_of reg = EmptyString ∧ ignore_case_of reg = Py.contains f "i".
Proof.
  intros Hreg Hpre Hf. rewrite contains_has_char in Hpre, Hf.
  unfold pattern_of, ignore_case_of. rewrite Hreg.
  change (pre +:+ "/" +:+ f) with (pre +:+ String "/" f).
  assert (Py.find (pre +:+ String "/" f) "/" = Py.len pre) as ->.
  { unfold Py.find. rewrite find_from_app by done. lia. }
  assert (Py.rfind (pre +:+ String "/" f) "/" = Py.len pre) as ->.
  { unfold Py.rfind. rewrite rfind_from_last by done. lia. }
  assert (Py.len (pre +:+ String "/" f) = Py.len pre + 1 + Py.len f) as Hlen.
  { rewrite len_append. unfold Py.len. simpl. lia. }
  assert (0 ≤ Py.len pre ∧ 0 ≤ Py.len f) as [? ?] by (unfold Py.len; lia).
  split.
  - unfold Py.slice, Py.clamp. rewrite Hlen.
    rewrite !(proj2 (Z.ltb_ge _ _)) by lia. rewrite !Z.min_l by lia.
    replace (Z.to_nat (Py.len pre - (Py.len pre + 1))) with 0%nat by lia.
    apply substring_zero.
  - f_equal. unfold Py.slice_from, Py.slice, Py.clamp. rewrite Hlen.
    rewrite !(proj2 (Z.ltb_ge _ _)) by lia. rewrite !Z.min_l by lia.
    replace (Z.to_nat (Py.len pre + 1)) with (String.length (pre +:+ "/") + 0)%nat
      by (rewrite length_append; unfold Py.len; simpl; lia).
    replace (Z.to_nat (Py.len pre + 1 + Py.len f - (Py.len pre + 1)))
      with (String.length f) by (unfold Py.len; lia).
    replace (pre +:+ String "/" f) with ((pre +:+ "/") +:+ f) by (by rewrite append_assoc).
    by rewrite substring_skip, substring_all.
Qed.

Lemma rule_pattern_single_slash_witness :
  Regex.regex (Regex.mk 1 ".*" "name/i" 0) = "name" +:+ "/" +:+ "i"
  ∧ Py.contains "name" "/" = false ∧ Py.contains "i" "/" = false
  ∧ pattern_of (Regex.mk 1 ".*" "name/i" 0) = EmptyString
  ∧ ignore_case_of (Regex.mk 1 ".*" "name/i" 0) = Py.contains "i" "i".
Proof.
  split; [reflexivity|]. split; [reflexivity|]. split; [reflexivity|].
  apply (rule_pattern_single_slash (Regex.mk 1 ".*" "name/i" 0) "name" "i"); reflexivity.
Defined.
End RulePattern.

(** ** The part count found in the subject, lines 133-135 *)

Section SubjectParts.
Lemma digit_run_split n s :
  ∃ d rest, s = d +:+ rest ∧ String.length d = digit_run n s
            ∧ all_chars Py.is_digit d = true
            ∧ drop_chars (digit_run n s) s = rest ∧ (digit_run n s ≤ n)%nat.
Proof.
  revert s. induction n as [|n IH]; intros s.
  - exists EmptyString, s. by destruct s.
  - destruct s as [|a s]; [by exists EmptyString, EmptyString; repeat split; simpl; try lia|].
    simpl. destruct (Py.is_digit a) eqn:Ha.
    + destruct (IH s) as (d & rest & -> & Hlen & Hd & Hdrop & Hle).
      exists (String a d), rest. simpl. rewrite Ha, Hd, Hlen.
      repeat split; [done|lia].
    + exists EmptyString, (String a s). repeat split. lia.
Qed.

Lemma substring_prefix_more d r m :
  substring 0 (String.length d + m) (d +:+ r) = d +:+ substring 0 m r.
Proof.
  induction d as [|a d IH]; [done|]. rewrite !append_cons. simpl. by rewrite IH.
Qed.

Lemma substring_split m r : ∃ post, r = substring 0 m r +:+ post.
Proof.
  revert r. induction m as [|m IH]; intros r.
  - exists r. by destruct r.
  - destruct r as [|a r]; [by exists EmptyString|]. simpl.
    destruct (IH r) as [post Hpost]. exists post. rewrite append_cons. by f_equal.
Qed.

(** What [parts_at] matches at the head of a text. *)
Lemma parts_at_some s g :
  parts_at s = Some g →
  ∃ d1 d2 post,
    s = g +:+ post ∧ g = d1 +:+ "/" +:+ d2
    ∧ all_chars Py.is_digit d1 = true ∧ all_chars Py.is_digit d2 = true
    ∧ (1 ≤ String.length d1 ≤ 3)%nat ∧ (1 ≤ String.length d2 ≤ 3)%nat.
Proof.
  unfold parts_at. cbv zeta.
  destruct (digit_run_split 3 s) as (d1 & rest & Hs & Hlen1 & Hd1 & Hdrop & Hle1).
  destruct (digit_run 3 s) as [|k] eqn:Hk; [done|]. rewrite Hdrop.
  destruct rest as [|c rest]; [done|].
  destruct c as [[] [] [] [] [] [] [] []]; try done.
  destruct (digit_run_split 3 rest) as (d2 & rest2 & Hrest & Hlen2 & Hd2 & _ & Hle2).
  destruct (digit_run 3 rest) as [|j] eqn:Hj; [done|]. intros [= <-].
  exists d1, d2, rest2.
  assert (substring 0 (S (k + 1 + S j)) s = d1 +:+ "/" +:+ d2) as ->.
  { replace (S (k + 1 + S j)) with (String.length d1 + (1 + S j))%nat by lia.
    rewrite Hs at 1. rewrite substring_prefix_more. f_equal.
    change (substring 0 (1 + S j) (String "/" rest))
      with (String "/" (substring 0 (S j) rest)).
    change ("/" +:+ d2) with (String "/" d2). f_equal. rewrite Hrest, <-Hlen2.
    replace (String.length d2) with (String.length d2 + 0)%nat by lia.
    rewrite substring_prefix_more. destruct rest2; simpl; by rewrite append_empty_r. }
  split.
  - rewrite Hs, Hrest. rewrite !append_assoc. f_equal.
  - repeat split; try done; lia.
Qed.

Lemma search_parts_unfold s :
  search_parts s =
    match parts_at s with
    | Some g => Some g
    | None => match s with EmptyString => None | String _ s' => search_parts s' end
    end.
Proof. by destruct s. Qed.

Lemma search_parts_some subject g :
  search_parts subject = Some g →
  ∃ pre post d1 d2,
    subject = pre +:+ g +:+ post ∧ g = d1 +:+ "/" +:+ d2
    ∧ all_chars Py.is_digit d1 = true ∧ all_chars Py.is_digit d2 = true
    ∧ (1 ≤ String.length d1 ≤ 3)%nat ∧ (1 ≤ String.length d2 ≤ 3)%nat.
Proof.
  induction subject as [|a s IH]; rewrite search_parts_unfold.
  - destruct (parts_at EmptyString) as [g'|] eqn:Hat; [|done]. intros [= ->].
    apply parts_at_some in Hat as (d1 & d2 & post & Hs & Hg & Hrest).
    exists EmptyString, post, d1, d2. done.
  - destruct (parts_at (String a s)) as [g'|] eqn:Hat.
    + intros [= ->]. apply parts_at_some in Hat as (d1 & d2 & post & Hs & Hg & Hrest).
      exists EmptyString, post, d1, d2. done.
    + intros (pre & post & d1 & d2 & -> & Hrest)%IH.
      exists (String a pre), post, d1, d2. done.
Qed.

(** What the fallback search returns is a piece of the subject: one to
    three digits, a slash, one to three digits. *)
Theorem search_parts_found subject g :
  search_parts subject = Some g →
  ∃ pre post d1 d2,
    subject = pre +:+ g +:+ post ∧ g = d1 +:+ "/" +:+ d2
    ∧ all_chars Py.is_digit d1 = true ∧ all_chars Py.is_digit d2 = true
    ∧ (1 ≤ String.length d1 ≤ 3)%nat ∧ (1 ≤ String.length d2 ≤ 3)%nat.
Proof. apply search_parts_some. Qed.

Lemma search_parts_found_witness :
  search_parts "Big.Movie [01/20] - x" = Some "01/20"
  ∧ ∃ pre post d1 d2,
      "Big.Movie [01/20] - x" = pre +:+ "01/20" +:+ post ∧ "01/20" = d1 +:+ "/" +:+ d2
      ∧ all_chars Py.is_digit d1 = true ∧ all_chars Py.is_digit d2 = true
      ∧ (1 ≤ String.length d1 ≤ 3)%nat ∧ (1 ≤ String.length d2 ≤ 3)%nat.
Proof.
  split; [reflexivity|].
  apply (search_parts_found "Big.Movie [01/20] - x" "01/20"). reflexivity.
Defined.

Lemma parts_at_digit_slash_digit a b post :
  Py.is_digit a = true → Py.is_digit b = true →
  is_Some (parts_at (String a (String "/" (String b post)))).
Proof.
  intros Ha Hb. unfold parts_at. cbv zeta.
  assert (digit_run 3 (String a (String "/" (String b post))) = 1%nat) as ->
    by (simpl; by rewrite Ha).
  change (drop_chars 1 (String a (String "/" (String b post))))
    with (String "/" (String b post)).
  assert (∃ j, digit_run 3 (String b post) = S j) as [j ->]
    by (simpl; rewrite Hb; eauto).
  by eexists.
Qed.

(** The fallback search finds a part count exactly when the subject
    holds a digit, a slash and a digit in a row. *)
Theorem search_parts_finds subject :
  is_Some (search_parts subject) ↔
  ∃ pre a b post,
    subject = pre +:+ String a (String "/" (String b post))
    ∧ Py.is_digit a = true ∧ Py.is_digit b = true.
Proof.
  split.
  - intros [g Hg]. apply search_parts_some in Hg
      as (pre & post & d1 & d2 & -> & -> & Hd1 & Hd2 & [Hl1 _] & [Hl2 _]).
    assert (∃ d1' a, d1 = d1' +:+ String a EmptyString ∧ Py.is_digit a = true)
      as (d1' & a & -> & Ha).
    { clear Hl2 Hd2. induction d1 as [|x d1 IH]; [simpl in Hl1; lia|].
      simpl in Hd1. apply andb_true_iff in Hd1 as [Hx Hd1].
      destruct d1 as [|y d1]; [by exists EmptyString, x|].
      destruct IH as (d1' & a & Heq & Ha); [done|simpl; lia|].
      exists (String x d1'), a. by rewrite append_cons, <-Heq. }
    destruct d2 as [|b d2]; [simpl in Hl2; lia|].
    simpl in Hd2. apply andb_true_iff in Hd2 as [Hb _].
    exists (pre +:+ d1'), a, b, (d2 +:+ post). split; [|done].
    rewrite !append_assoc. reflexivity.
  - intros (pre & a & b & post & -> & Ha & Hb).
    induction pre as [|x pre IH]; rewrite search_parts_unfold.
    + destruct (parts_at_digit_slash_digit a b post Ha Hb) as [g Hg].
      change (EmptyString +:+ ?t) with t. by rewrite Hg.
    + destruct (parts_at _); [done|]. rewrite append_cons. apply IH.
Qed.
End SubjectParts.

(** ** Where a ValueError can come from *)

Section ValueErrors.
Context {S : Type} `{!Storage S}.
Variable regex_search : string → string → bool → search_result.












Lemma found_parts_truthy subject g : search_parts subject = Some g → truthy (Some g) = true.
Proof.
  intros (pre & post & d1 & d2 & _ & -> & _ & _ & [Hl1 _] & _)%search_parts_some.
  destruct d1; [simpl in Hl1; lia|done].
Qed.


End ValueErrors.


(** ** What a run gathers *)

Section Gathering.
Context {S : Type} `{!Storage S}.
Variable regex_search : string → string → bool → search_result.

Lemma truthy_text v : truthy v = true → text v ≠ EmptyString.
Proof. by destruct v as [[|a s]|]. Qed.

(** What [accept] knows when it files a part: the name is not empty,
    and when it made the part an orphan, the part is old, its subject
    holds no part count and the count is 00/00. *)
Lemma accept_break now reg part groupdict (s s' : Run S) :
  accept now reg part groupdict s = Break s' →
  ∃ name parts s0,
    name ≠ EmptyString
    ∧ (s0 = s
       ∨ (s0 = add_orphan name s ∧ parts = "00/00"
          ∧ three_hours_old now (Part.posted part) = true
          ∧ search_parts (Part.subject part) = None))
    ∧ aggregate reg part name parts s0 = Break s'.
Proof.
  unfold accept.
  set (fields0 := fill_name (strip_values groupdict)).
  destruct (negb (truthy (get fields0 "name"))) eqn:Hname; [done|].
  apply negb_false_iff in Hname.
  set (fields := find_parts (Part.subject part) fields0).
  assert (get fields "name" = get fields0 "name") as Hsame by apply find_parts_name.
  destruct (negb (truthy (get fields "parts"))) eqn:Hparts; cbn [andb].
  - destruct (three_hours_old now (Part.posted part)) eqn:Hold.
    + rewrite get_insert_eq, get_insert_ne, Hsame, Hname by done. cbn [andb truthy].
      intros Hagg. exists (text (get fields0 "name")), "00/00", (add_orphan (text (get fields0 "name")) s).
      split; [by apply truthy_text|]. split; [|done]. right.
      repeat split. unfold fields, find_parts in Hparts.
      destruct (negb (truthy (get fields0 "parts"))) eqn:H0; [|by rewrite H0 in Hparts].
      destruct (search_parts (Part.subject part)) as [g|] eqn:Hfound; [|done].
      rewrite get_insert_eq in Hparts.
      apply negb_true_iff in Hparts. by rewrite (found_parts_truthy _ _ Hfound) in Hparts.
    + apply negb_true_iff in Hparts. by rewrite Hparts, andb_false_r.
  - rewrite Hsame, Hname. cbn [andb]. apply negb_false_iff in Hparts. rewrite Hparts.
    intros Hagg. exists (text (get fields0 "name")), (text (get fields "parts")), s.
    split; [by apply truthy_text|]. split; [by left|done].
Qed.

(** One breaking turn in full. *)
Lemma rule_body_break_detail now part reg (s s' : Run S) :
  rule_body regex_search now part (Rule reg) s = Break s' →
  ∃ name current b,
    name ≠ EmptyString
    ∧ binaries s' = <[name := b]> (binaries s)
    ∧ filed s' = filed s ++ [(name, current, part)]
    ∧ match binaries s !! name with
      | Some b0 => b = Binary.attach current part b0
      | None => ∃ n, b = Binary.mk name (Part.posted part) (Part.posted_by part)
                           (Part.group_name part) (Part.xref part) (Regex.id reg)
                           n {[current := part]}
      end
    ∧ (orphan_binaries s' = orphan_binaries s
       ∨ (orphan_binaries s' = orphan_binaries s ++ [name] ∧ current = "00"
          ∧ three_hours_old now (Part.posted part) = true
          ∧ search_parts (Part.subject part) = None))
    ∧ count s' = count s ∧ saves s' = saves s ∧ db s' = db s ∧ log s' = log s
    ∧ total_processed s' = total_processed s ∧ total_binaries s' = total_binaries s.
Proof.
  rewrite rule_body_rule.
  destruct (searched regex_search part reg) as [| |groupdict]; [done|done|].
  case_bool_decide; [done|].
  intros (name & parts & s0 & Hname & Hs0 & Hagg)%accept_break.
  apply aggregate_break in Hagg as (current & total & Hsplit & Hagg).
  exists name, current.
  assert (binaries s0 = binaries s ∧ filed s0 = filed s ∧ count s0 = count s
          ∧ saves s0 = saves s ∧ db s0 = db s ∧ log s0 = log s
          ∧ total_processed s0 = total_processed s
          ∧ total_binaries s0 = total_binaries s)
    as (Hbin & Hfiled & Hc & Hsv & Hdb & Hlog & Htp & Htb)
    by (by destruct Hs0 as [-> | (-> & _)]).
  assert (orphan_binaries s0 = orphan_binaries s
          ∨ (orphan_binaries s0 = orphan_binaries s ++ [name] ∧ current = "00"
             ∧ three_hours_old now (Part.posted part) = true
             ∧ search_parts (Part.subject part) = None)) as Horphan.
  { destruct Hs0 as [-> | (-> & -> & Hold & Hnone)]; [by left|right].
    change (Py.split (normalize_parts "00/00") "/") with ["00"; "00"] in Hsplit.
    by injection Hsplit as <- <-. }
  rewrite <-Hbin, <-Hfiled, <-Hc, <-Hsv, <-Hdb, <-Hlog, <-Htp, <-Htb.
  destruct Hagg as [(b & Hlook & ->)|(Hlook & n & _ & ->)].
  - exists (Binary.attach current part b). rewrite Hlook. by repeat split.
  - eexists. rewrite Hlook. repeat split; try done. by exists n.
Qed.

(** A loop over the rules either leaves the accumulation, the filed
    parts, the orphans and the counters alone, or is one breaking turn
    of a loaded rule on top of that. *)
Lemma rule_loop_detail now part all_regex (s s' : Run S) :
  for_each (rule_body regex_search now part) (relevant_regex part all_regex) s = Ok s' →
  count s' = count s ∧ saves s' = saves s
  ∧ total_processed s' = total_processed s ∧ total_binaries s' = total_binaries s
  ∧ ((binaries s' = binaries s ∧ filed s' = filed s
      ∧ orphan_binaries s' = orphan_binaries s)
     ∨ ∃ reg name current b,
         reg ∈ all_regex ∧ in_scope part reg = true ∧ name ≠ EmptyString
         ∧ binaries s' = <[name := b]> (binaries s)
         ∧ filed s' = filed s ++ [(name, current, part)]
         ∧ match binaries s !! name with
           | Some b0 => b = Binary.attach current part b0
           | None => ∃ n, b = Binary.mk name (Part.posted part) (Part.posted_by part)
                                (Part.group_name part) (Part.xref part) (Regex.id reg)
                                n {[current := part]}
           end
         ∧ (orphan_binaries s' = orphan_binaries s
            ∨ (orphan_binaries s' = orphan_binaries s ++ [name] ∧ current = "00"
               ∧ three_hours_old now (Part.posted part) = true
               ∧ search_parts (Part.subject part) = None))).
Proof.
  intros [Hp|(before & x & after & s1 & Heq & Hp & Hx)]%for_each_inv.
  - apply passes_rules in Hp as (? & ? & ? & ? & ? & ? & ?). repeat split; try done.
    by left.
  - apply passes_rules in Hp as (Hb1 & Hf1 & Ho1 & Hc1 & Hs1 & Htp1 & Htb1).
    unfold relevant_regex in Heq.
    apply fmap_app_inv in Heq as (before' & rest & -> & Hrest & ->).
    symmetry in Hrest. apply fmap_cons_inv in Hrest as (reg & after' & Hreg & -> & ->).
    destruct (in_scope part reg) eqn:Hscope; [|by subst x]. subst x.
    apply rule_body_break_detail in Hx
      as (name & current & b & Hname & Hb & Hf & Hwhich & Horphan
          & Hc & Hs & _ & _ & Htp & Htb).
    rewrite Hb1, Hf1, Ho1 in *.
    split; [congruence|]. split; [congruence|]. split; [congruence|].
    split; [congruence|]. right. exists reg, name, current, b.
    split; [apply elem_of_app; right; apply list_elem_of_here|]. done.
Qed.

Lemma part_body_detail now all_regex part (s s' : Run S) :
  part_body regex_search now all_regex part s = Ok s' → count s = 0 →
  count s' = 0 ∧ saves s' = saves s
  ∧ total_processed s' = total_processed s + 1 ∧ total_binaries s' = total_binaries s
  ∧ ((binaries s' = binaries s ∧ filed s' = filed s
      ∧ orphan_binaries s' = orphan_binaries s)
     ∨ ∃ reg name current b,
         reg ∈ all_regex ∧ in_scope part reg = true ∧ name ≠ EmptyString
         ∧ binaries s' = <[name := b]> (binaries s)
         ∧ filed s' = filed s ++ [(name, current, part)]
         ∧ match binaries s !! name with
           | Some b0 => b = Binary.attach current part b0
           | None => ∃ n, b = Binary.mk name (Part.posted part) (Part.posted_by part)
                                (Part.group_name part) (Part.xref part) (Regex.id reg)
                                n {[current := part]}
           end
         ∧ (orphan_binaries s' = orphan_binaries s
            ∨ (orphan_binaries s' = orphan_binaries s ++ [name] ∧ current = "00"
               ∧ three_hours_old now (Part.posted part) = true
               ∧ search_parts (Part.subject part) = None))).
Proof.
  unfold part_body. intros Hp Hc.
  destruct (for_each _ _ _) as [s1|] eqn:Hloop; [|done]. simpl in Hp.
  apply rule_loop_detail in Hloop as (Hc1 & Hs1 & Htp & Htb & Hout). simpl in *.
  rewrite Hc1, Hc in Hp. change (CHUNK_SIZE <=? 0) with false in Hp.
  injection Hp as <-. split; [congruence|]. done.
Qed.

Lemma gathered_step now all_regex seen part (s s' : Run S) :
  gathered_from now all_regex seen s →
  part_body regex_search now all_regex part s = Ok s' →
  gathered_from now all_regex (seen ++ [part]) s'.
Proof.
  intros (Hc & Htb & Htp & Hsv & Hbin & Hfiled & Horph & Hsub) Hturn.
  apply part_body_detail in Hturn as (Hc' & Hsv' & Htp' & Htb' & Hout); [|done].
  split; [done|]. split; [congruence|].
  split; [rewrite Htp', Htp, length_app; simpl; lia|]. split; [congruence|].
  destruct Hout as [(Hb & Hf & Ho)|(reg & name & current & b & Hreg & Hscope & Hname
                                     & Hb & Hf & Hwhich & Ho)].
  - rewrite Hb, Hf, Ho. split; [|split; [|split; [|by apply sublist_inserts_r]]].
    + intros name b Hl. destruct (Hbin name b Hl) as (? & ? & ? & ? & Hparts).
      repeat split; try done; destruct (Hparts current part0); try done.
      apply elem_of_app. by left.
    + intros name current part0 Hin. destruct (Hfiled _ _ _ Hin) as [? ?].
      split; [apply elem_of_app; by left|done].
    + intros name Hin. destruct (Horph name Hin) as (part0 & ? & ?).
      exists part0. split; [apply elem_of_app; by left|done].
  - assert (part ∈ seen ++ [part]) as Hpart
      by (apply elem_of_app; right; apply list_elem_of_here).
    assert ((name, current, part) ∈ filed s') as Hnew
      by (rewrite Hf; apply elem_of_app; right; apply list_elem_of_here).
    split; [|split; [|split; [|by rewrite Hf, fmap_app; apply sublist_app]]].
    + intros name0 b0. rewrite Hb. destruct (decide (name0 = name)) as [->|Hne].
      * rewrite lookup_insert_eq. intros [= <-].
        destruct (binaries s !! name) as [b1|] eqn:Hl.
        -- subst b. destruct (Hbin name b1 Hl) as (_ & Hn & Hr & _ & Hparts).
           split; [done|]. split; [done|]. split; [done|].
           split; [exists current, part; simpl; apply lookup_insert_eq|].
           intros current0 part0. simpl.
           destruct (decide (current0 = current)) as [->|Hcne].
           ++ rewrite lookup_insert_eq. by intros [= <-].
           ++ rewrite lookup_insert_ne by done. intros Hp0.
              destruct (Hparts _ _ Hp0) as [? ?].
              split; [apply elem_of_app; by left|].
              rewrite Hf. apply elem_of_app. by left.
        -- destruct Hwhich as [n ->]. simpl.
           split; [done|]. split; [done|]. split; [by exists reg|].
           split; [exists current, part; apply lookup_singleton_eq|].
           intros current0 part0 [<- <-]%lookup_singleton_Some. done.
      * rewrite lookup_insert_ne by done. intros Hl.
        destruct (Hbin name0 b0 Hl) as (? & ? & ? & ? & Hparts).
        repeat split; try done; destruct (Hparts current0 part0); try done.
        -- apply elem_of_app. by left.
        -- rewrite Hf. apply elem_of_app. by left.
    + intros name0 current0 part0. rewrite Hf, Hb.
      intros [Hold|[= -> -> ->]%list_elem_of_singleton]%elem_of_app.
      * destruct (Hfiled _ _ _ Hold) as [? [b0 Hl]].
        split; [apply elem_of_app; by left|].
        destruct (decide (name0 = name)) as [->|Hne];
          [rewrite lookup_insert_eq|rewrite lookup_insert_ne by done]; by eexists.
      * split; [done|]. rewrite lookup_insert_eq. by eexists.
    + intros name0 Hin.
      assert (name0 ∈ orphan_binaries s
              ∨ (name0 = name ∧ current = "00"
                 ∧ three_hours_old now (Part.posted part) = true
                 ∧ search_parts (Part.subject part) = None))
        as [Hold | (-> & -> & ? & ?)].
      { destruct Ho as [Ho|(Ho & ? & ? & ?)]; rewrite Ho in Hin; [by left|].
        apply elem_of_app in Hin as [? | ->%list_elem_of_singleton]; [by left|by right]. }
      * destruct (Horph name0 Hold) as (part0 & ? & ? & ?). exists part0.
        split; [apply elem_of_app; by left|]. split; [|done].
        rewrite Hf. apply elem_of_app. by left.
      * by exists part.
Qed.

Lemma gathered_loop now all_regex seen parts (s s' : Run S) :
  gathered_from now all_regex seen s →
  for_all (part_body regex_search now all_regex) parts s = Ok s' →
  gathered_from now all_regex (seen ++ parts) s'.
Proof.
  revert seen s. induction parts as [|part parts IH]; intros seen s Hinv.
  - intros [= <-]. by rewrite app_nil_r.
  - simpl. destruct (part_body _ _ _ _ s) as [s1|] eqn:Hturn; [|done]. simpl.
    intros Hrest. replace (seen ++ part :: parts) with ((seen ++ [part]) ++ parts)
      by (by rewrite <-app_assoc).
    eapply IH; [|done]. by eapply gathered_step.
Qed.

Lemma gathered_start now all_regex (db0 : S) : gathered_from now all_regex [] (start db0).
Proof.
  unfold gathered_from. simpl.
  split; [done|]. split; [done|]. split; [done|]. split; [done|].
  split; [|split; [|split; [|done]]].
  - intros name b Hl. by rewrite lookup_empty in Hl.
  - by intros name current part ?%elem_of_nil.
  - by intros name ?%elem_of_nil.
Qed.

Lemma process_gathered now (db0 : S) (r : Run S) :
  process regex_search now db0 = Ok r →
  ∃ s, r = finish s
       ∧ gathered_from now (load_rules db0)
           (unclaimed_parts (part_group_names db0) db0) s.
Proof.
  unfold process. destruct (for_all _ _ _) as [s|] eqn:Hloop; [|done].
  simpl. intros [= <-]. exists s. split; [done|].
  apply (gathered_loop now (load_rules db0) [] _ (start db0) s); [|done].
  apply gathered_start.
Qed.

Lemma finish_gathered (s : Run S) :
  binaries (finish s) = binaries s ∧ filed (finish s) = filed s
  ∧ orphan_binaries (finish s) = orphan_binaries s
  ∧ total_processed (finish s) = total_processed s
  ∧ total_binaries (finish s) = total_binaries s + Z.of_nat (size (binaries s))
  ∧ ∃ lines, log (finish s)
      = lines ++ [InfoProcessed (total_processed s)
                    (total_binaries s + Z.of_nat (size (binaries s)))].
Proof.
  unfold finish. destruct (save _ _) as [db' errs]. simpl. repeat split.
  exists (log s ++ errs). by rewrite <-app_assoc.
Qed.

(** The line that a run logs at its end counts every part of the
    stream, whether a rule fitted it or not, and every name of the
    accumulation, whether its binary is new to the store or not. *)
Theorem run_report now (db0 : S) (r : Run S) :
  process regex_search now db0 = Ok r →
  total_processed r = Z.of_nat (length (unclaimed_parts (part_group_names db0) db0))
  ∧ total_binaries r = Z.of_nat (size (binaries r))
  ∧ last (log r) = Some (InfoProcessed (total_processed r) (total_binaries r)).
Proof.
  intros (s & -> & (_ & Htb & Htp & _))%process_gathered.
  destruct (finish_gathered s) as (-> & _ & _ & -> & -> & lines & ->).
  rewrite Htb, Htp, last_snoc. done.
Qed.

(** Every binary that a run holds at its end has a name that is not
    empty and is stored under that name, carries the identifier of a
    loaded rule, and has at least one part; each part attached to it
    comes from the stream of unclaimed parts and was filed under that
    name and index. *)
Theorem run_accumulation now (db0 : S) (r : Run S) :
  process regex_search now db0 = Ok r →
  ∀ name b, binaries r !! name = Some b →
    name ≠ EmptyString ∧ Binary.name b = name
    ∧ (∃ reg, reg ∈ load_rules db0 ∧ Binary.regex_id b = Regex.id reg)
    ∧ (∃ current part, Binary.parts b !! current = Some part)
    ∧ ∀ current part, Binary.parts b !! current = Some part →
        part ∈ unclaimed_parts (part_group_names db0) db0
        ∧ (name, current, part) ∈ filed r.
Proof.
  intros (s & -> & (_ & _ & _ & _ & Hbin & _))%process_gathered.
  destruct (finish_gathered s) as (-> & -> & _). apply Hbin.
Qed.

(** Every name in the list of orphans belongs to a part of the stream
    that was filed under that name with the index 00, passes the age
    test of line 138, and has no part count in its subject. *)
Theorem run_orphans now (db0 : S) (r : Run S) :
  process regex_search now db0 = Ok r →
  ∀ name, name ∈ orphan_binaries r →
    ∃ part, part ∈ unclaimed_parts (part_group_names db0) db0
            ∧ (name, "00", part) ∈ filed r
            ∧ three_hours_old now (Part.posted part) = true
            ∧ search_parts (Part.subject part) = None.
Proof.
  intros (s & -> & (_ & _ & _ & _ & _ & _ & Horph & _))%process_gathered.
  destruct (finish_gathered s) as (_ & -> & -> & _). apply Horph.
Qed.
End Gathering.

Lemma run_report_witness :
  process Fixture.search 0 Fixture.tidy_store = Ok Fixture.tidy_run
  ∧ total_processed Fixture.tidy_run
    = Z.of_nat (length (unclaimed_parts (part_group_names Fixture.tidy_store)
                          Fixture.tidy_store))
  ∧ total_binaries Fixture.tidy_run = Z.of_nat (size (binaries Fixture.tidy_run))
  ∧ last (log Fixture.tidy_run)
    = Some (InfoProcessed (total_processed Fixture.tidy_run)
              (total_binaries Fixture.tidy_run)).
Proof.
  assert (process Fixture.search 0 Fixture.tidy_store = Ok Fixture.tidy_run) as Hrun
    by (vm_compute; reflexivity).
  split; [exact Hrun|].
  exact (run_report Fixture.search 0 Fixture.tidy_store Fixture.tidy_run Hrun).
Defined.

Lemma run_accumulation_witness :
  process Fixture.search 0 Fixture.tidy_store = Ok Fixture.tidy_run
  ∧ ∀ name b, binaries Fixture.tidy_run !! name = Some b →
      name ≠ EmptyString ∧ Binary.name b = name
      ∧ (∃ reg, reg ∈ load_rules Fixture.tidy_store ∧ Binary.regex_id b = Regex.id reg)
      ∧ (∃ current part, Binary.parts b !! current = Some part)
      ∧ ∀ current part, Binary.parts b !! current = Some part →
          part ∈ unclaimed_parts (part_group_names Fixture.tidy_store) Fixture.tidy_store
          ∧ (name, current, part) ∈ filed Fixture.tidy_run.
Proof.
  assert (process Fixture.search 0 Fixture.tidy_store = Ok Fixture.tidy_run) as Hrun
    by (vm_compute; reflexivity).
  split; [exact Hrun|].
  exact (run_accumulation Fixture.search 0 Fixture.tidy_store Fixture.tidy_run Hrun).
Defined.

Lemma run_orphans_witness :
  process Fixture.search (Fixture.hours 4) Fixture.orphan_store = Ok orphan_run
  ∧ ∀ name, name ∈ orphan_binaries orphan_run →
      ∃ part, part ∈ unclaimed_parts (part_group_names Fixture.orphan_store)
                       Fixture.orphan_store
              ∧ (name, "00", part) ∈ filed orphan_run
              ∧ three_hours_old (Fixture.hours 4) (Part.posted part) = true
              ∧ search_parts (Part.subject part) = None.
Proof.
  assert (process Fixture.search (Fixture.hours 4) Fixture.orphan_store = Ok orphan_run)
    as Hrun by (vm_compute; reflexivity).
  split; [exact Hrun|].
  exact (run_orphans Fixture.search (Fixture.hours 4) Fixture.orphan_store orphan_run Hrun).
Defined.

Example orphan_run_lists_the_orphan : orphan_binaries orphan_run = ["orphan.nzb"].
Proof. vm_compute. reflexivity. Qed.

(** ** [save] on the table store *)

Section SaveOnTables.
Lemma updated_elem {S : Type} `{!Storage S} (B : gmap string Binary.t) (db0 : S) pid bid :
  (pid, bid) ∈ updated (save_steps B db0) →
  ∃ name b current part,
    B !! name = Some b ∧ Binary.parts b !! current = Some part ∧ Part.id part = pid
    ∧ (bid, name) ∈ binaries_named (map_to_list B).*1
                      (insert_binaries (inserted (save_steps B db0)) db0).
Proof.
  rewrite save_steps_eq. simpl.
  intros ([name b] & Hup & Hentry)%list_elem_of_bind.
  apply elem_of_map_to_list in Hentry. unfold updates_for in Hup. simpl in Hup.
  destruct (existing_binaries B _ !! name) as [row|] eqn:Hrow;
    [|by apply elem_of_nil in Hup].
  apply list_elem_of_fmap in Hup as ([current part] & [= -> ->] & Hpart).
  apply elem_of_map_to_list in Hpart.
  destruct (existing_binaries_lookup _ _ _ _ Hrow) as [Hin Hname].
  destruct row as [bid name']. simpl in *. subst name'.
  by exists name, b, current, part.
Qed.

Lemma update_result us st q :
  q ∈ Store.part_table (Store.update us st) →
  (q ∈ Store.part_table st ∧ Part.id q ∉ us.*1)
  ∨ ∃ bid, (Part.id q, bid) ∈ us ∧ Part.binary_id q = Some bid.
Proof.
  revert st. induction us as [|u us IH]; intros st.
  - intros Hin. left. split; [done|apply not_elem_of_nil].
  - unfold Store.update. simpl. fold (Store.update us (Store.update_one st u)).
    intros [[Hin Hnot]|(bid & Hin & Hb)]%IH.
    + simpl in Hin. apply list_elem_of_fmap in Hin as (q0 & -> & Hin0).
      case_bool_decide as Hid.
      * right. exists u.2. split; [|done]. simpl. rewrite Hid.
        destruct u. apply list_elem_of_here.
      * left. split; [done|]. by apply not_elem_of_cons.
    + right. exists bid. split; [by apply list_elem_of_further|done].
Qed.

Lemma update_keeps us st q :
  q ∈ Store.part_table st → Part.id q ∉ us.*1 →
  q ∈ Store.part_table (Store.update us st).
Proof.
  revert st. induction us as [|u us IH]; intros st Hin Hnot; [done|].
  unfold Store.update. simpl. fold (Store.update us (Store.update_one st u)).
  apply not_elem_of_cons in Hnot as [Hne Hnot]. apply IH; [|done].
  simpl. apply list_elem_of_fmap. exists q. split; [|done].
  by rewrite bool_decide_eq_false_2.
Qed.

Lemma update_unowned us st :
  unowned <$> Store.part_table (Store.update us st) = unowned <$> Store.part_table st.
Proof.
  revert st. induction us as [|u us IH]; intros st; [done|].
  unfold Store.update. simpl. fold (Store.update us (Store.update_one st u)).
  rewrite IH. simpl. rewrite <-list_fmap_compose. apply list_fmap_ext.
  intros i part _. simpl. by case_bool_decide.
Qed.

Lemma insert_rows bs st :
  ∃ rows,
    Store.binary_table (Store.insert bs st) = Store.binary_table st ++ rows
    ∧ BinaryRow.name <$> rows = Binary.name <$> bs
    ∧ BinaryRow.id <$> rows = seqZ (Store.next_binary_id st) (Z.of_nat (length bs))
    ∧ Store.next_binary_id (Store.insert bs st)
      = Store.next_binary_id st + Z.of_nat (length bs).
Proof.
  revert st. induction bs as [|b bs IH]; intros st.
  - exists []. simpl. rewrite app_nil_r. repeat split. lia.
  - unfold Store.insert. simpl foldl. fold (Store.insert bs (Store.insert_one st b)).
    destruct (IH (Store.insert_one st b)) as (rows & Ht & Hn & Hids & Hnext).
    exists (BinaryRow.of_binary (Store.next_binary_id st) b :: rows).
    rewrite Ht, Hnext. simpl Store.binary_table. simpl Store.next_binary_id.
    rewrite <-app_assoc. split; [done|]. rewrite !fmap_cons, Hn, Hids.
    split; [done|]. split; [|simpl length; lia].
    simpl Store.next_binary_id. simpl length. rewrite (seqZ_cons _ (Z.of_nat (S _))) by lia.
    simpl BinaryRow.id. f_equal. f_equal; lia.
Qed.

Lemma stored_tables (B : gmap string Binary.t) (st : Store.t) :
  (save B st).1
  = Store.update (updated (save_steps B st))
      (Store.insert (inserted (save_steps B st)) st).
Proof. unfold save. simpl. by rewrite save_steps_eq. Qed.

Lemma save_claims (B : gmap string Binary.t) (st : Store.t) (q : Part.t) :
  well_named B →
  q ∈ Store.part_table (save B st).1 →
  attached_id B (Part.id q) →
  ∃ bid name b current part row,
    Part.binary_id q = Some bid
    ∧ B !! name = Some b ∧ Binary.parts b !! current = Some part
    ∧ Part.id part = Part.id q
    ∧ row ∈ Store.binary_table (save B st).1
    ∧ BinaryRow.id row = bid ∧ BinaryRow.name row = name.
Proof.
  intros Hwn Hin (name0 & b0 & current0 & part0 & Hl0 & Hp0 & Hid0).
  rewrite stored_tables in *.
  set (us := updated (save_steps B st)) in *.
  set (bs := inserted (save_steps B st)) in *.
  apply update_result in Hin as [[_ Hnot]|(bid & Hup & Hb)].
  - destruct Hnot. rewrite <-Hid0. by eapply attached_part_updated.
  - apply updated_elem in Hup as (name & b & current & part & Hl & Hp & Hid & Hrow).
    apply named_elem in Hrow as (_ & row & Hrow & Hrid & Hrname).
    exists bid, name, b, current, part, row. repeat split; try done.
    destruct (update_tables us (Store.insert bs st)) as (_ & -> & _). done.
Qed.

(** After [save], every stored part that shares its identifier with a
    part attached in the accumulation is owned, and its owner is a row of
    the binaries table that bears a name under which such a part is
    attached. *)
Theorem save_claims_attached (B : gmap string Binary.t) (st : Store.t) (q : Part.t) :
  well_named B →
  q ∈ Store.part_table (save B st).1 →
  attached_id B (Part.id q) →
  ∃ bid name b current part row,
    Part.binary_id q = Some bid
    ∧ B !! name = Some b ∧ Binary.parts b !! current = Some part
    ∧ Part.id part = Part.id q
    ∧ row ∈ Store.binary_table (save B st).1
    ∧ BinaryRow.id row = bid ∧ BinaryRow.name row = name.
Proof. apply save_claims. Qed.

Lemma save_owners (B : gmap string Binary.t) (st : Store.t) :
  Store.regex_table (save B st).1 = Store.regex_table st
  ∧ unowned <$> Store.part_table (save B st).1 = unowned <$> Store.part_table st
  ∧ ∀ q, ¬ attached_id B (Part.id q) →
      (q ∈ Store.part_table (save B st).1 ↔ q ∈ Store.part_table st).
Proof.
  rewrite stored_tables.
  set (us := updated (save_steps B st)).
  set (bs := inserted (save_steps B st)).
  destruct (update_tables us (Store.insert bs st)) as (Hr & _).
  destruct (insert_tables bs st) as (Hp & Hr' & _).
  split; [congruence|]. split; [by rewrite update_unowned, Hp|].
  intros q Hfree.
  assert (Part.id q ∉ us.*1) as Hnot.
  { intros ([pid bid] & Hid & Hup)%list_elem_of_fmap. simpl in Hid. subst pid.
    apply updated_elem in Hup as (name & b & current & part & Hl & Hpart & Hid & _).
    apply Hfree. by exists name, b, current, part. }
  split.
  - intros [[Hin _]|(bid & Hup & _)]%update_result; [by rewrite <-Hp|].
    destruct Hnot. apply list_elem_of_fmap. by exists (Part.id q, bid).
  - intros Hin. apply update_keeps; [by rewrite Hp|done].
Qed.

(** [save] changes nothing but owners: the rules are as before, the
    parts are the same parts in the same order but for their owners,
    and a part that shares its identifier with no attached part is
    stored after [save] exactly when it was stored before. *)
Theorem save_changes_owners_only (B : gmap string Binary.t) (st : Store.t) :
  Store.regex_table (save B st).1 = Store.regex_table st
  ∧ unowned <$> Store.part_table (save B st).1 = unowned <$> Store.part_table st
  ∧ ∀ q, ¬ attached_id B (Part.id q) →
      (q ∈ Store.part_table (save B st).1 ↔ q ∈ Store.part_table st).
Proof. apply save_owners. Qed.

Lemma filter_none {A} (P : A → Prop) `{!∀ x, Decision (P x)} (l : list A) :
  (∀ x, x ∈ l → ¬ P x) → filter P l = [].
Proof.
  induction l as [|x l IH]; intros Hno; [done|]. rewrite filter_cons.
  rewrite decide_False by (apply Hno, list_elem_of_here).
  apply IH. intros y Hy. apply Hno. by apply list_elem_of_further.
Qed.

Lemma save_no_errors (B : gmap string Binary.t) (st : Store.t) :
  well_named B → (save B st).2 = [].
Proof.
  intros Hwn. unfold save. simpl.
  assert (errors (save_steps B st)
          = (λ _, ErrHorriblyWrong)
              <$> filter (λ entry, found_second (save_steps B st) !! entry.1 = None)
                    (map_to_list B)) as -> by (by rewrite save_steps_eq).
  rewrite filter_none; [done|]. intros [name b] Hin%elem_of_map_to_list Hnone.
  destruct (second_query_resolves B st name b Hwn Hin) as [row Hrow].
  simpl in Hnone. congruence.
Qed.

(** On the table store the second query finds every name of the
    accumulation, so [save] logs nothing: the branch of line 54 is never
    taken. *)
Theorem save_resolves_every_name (B : gmap string Binary.t) (st : Store.t) :
  well_named B → (save B st).2 = [].
Proof. apply save_no_errors. Qed.

Lemma inserted_names (B : gmap string Binary.t) (st : Store.t) :
  well_named B →
  Binary.name <$> inserted (save_steps B st)
  = (filter (λ entry, existing_binaries B st !! entry.1 = None) (map_to_list B)).*1.
Proof.
  intros Hwn. rewrite save_steps_eq. simpl.
  assert (∀ entry : string * Binary.t, entry ∈ map_to_list B → Binary.name entry.2 = entry.1)
    as Hall by (intros [name b] Hin%elem_of_map_to_list; by apply Hwn).
  revert Hall. generalize (map_to_list B). intros entries Hall.
  induction entries as [|entry entries IH]; [done|]. rewrite filter_cons.
  destruct (decide _) as [Hyes|Hno];
    [|apply IH; intros entry0 Hin; apply Hall; by apply list_elem_of_further].
  rewrite !fmap_cons. f_equal.
  - apply Hall, list_elem_of_here.
  - apply IH. intros entry0 Hin. apply Hall. by apply list_elem_of_further.
Qed.

(** A call of [save] that has a binary to insert at line 39 and a part
    to update at line 57 keeps the binaries table in order: the rows
    that were there stay as they are, ahead of the new ones, there is
    one new row for each binary inserted, with its name, and one row for
    a name, one row for a key and a sequence ahead of every key remain
    so. *)
Theorem save_keeps_binaries_unique (B : gmap string Binary.t) (st : Store.t) :
  well_named B → binaries_unique st →
  inserted (save_steps B st) ≠ [] → updated (save_steps B st) ≠ [] →
  binaries_unique (save B st).1
  ∧ ∃ rows,
      Store.binary_table (save B st).1 = Store.binary_table st ++ rows
      ∧ BinaryRow.name <$> rows = Binary.name <$> inserted (save_steps B st).
Proof.
  intros Hwn (Hnames & Hids & Hnext) _ _. rewrite stored_tables. unfold binaries_unique.
  set (us := updated (save_steps B st)).
  set (bs := inserted (save_steps B st)).
  destruct (update_tables us (Store.insert bs st)) as (_ & -> & -> & _).
  destruct (insert_rows bs st) as (rows & -> & Hrn & Hri & ->).
  split; [|by exists rows]. split; [|split].
  - rewrite fmap_app. apply NoDup_app. split; [done|]. split.
    + intros name (row & -> & Hrow)%list_elem_of_fmap. rewrite Hrn.
      unfold bs. rewrite inserted_names by done.
      intros ([name b] & Hname & [Hnone Hentry]%list_elem_of_filter)%list_elem_of_fmap.
      simpl in *. apply existing_binaries_none in Hnone. apply Hnone.
      apply list_elem_of_fmap. exists (BinaryRow.id row, BinaryRow.name row).
      split; [done|]. apply named_elem. split; [|by exists row].
      rewrite Hname. apply list_elem_of_fmap. by exists (name, b).
    + rewrite Hrn. unfold bs. rewrite inserted_names by done.
      eapply sublist_NoDup; [apply (NoDup_fst_map_to_list B)|].
      apply fmap_sublist, sublist_filter.
  - rewrite fmap_app. apply NoDup_app. split; [done|]. split; [|rewrite Hri; apply NoDup_seqZ].
    intros id (row & -> & Hrow)%list_elem_of_fmap. rewrite Hri.
    intros [Hlo _]%elem_of_seqZ. specialize (Hnext row Hrow). lia.
  - intros row [Hold|Hnew]%elem_of_app.
    + specialize (Hnext row Hold). lia.
    + assert (BinaryRow.id row ∈ BinaryRow.id <$> rows) as Hin
        by (apply list_elem_of_fmap; by exists row).
      rewrite Hri in Hin. apply elem_of_seqZ in Hin. lia.
Qed.
End SaveOnTables.

Ltac decide_closed := apply (bool_decide_unpack _); vm_compute; exact I.

Lemma save_claims_attached_witness :
  well_named foo_and_bar
  ∧ Store.claim 2 (Fixture.part 7 "alt.x" "bar 1/2" 0)
    ∈ Store.part_table (save foo_and_bar claimed_and_new).1
  ∧ attached_id foo_and_bar (Part.id (Store.claim 2 (Fixture.part 7 "alt.x" "bar 1/2" 0)))
  ∧ ∃ bid name b current part row,
      Part.binary_id (Store.claim 2 (Fixture.part 7 "alt.x" "bar 1/2" 0)) = Some bid
      ∧ foo_and_bar !! name = Some b ∧ Binary.parts b !! current = Some part
      ∧ Part.id part = Part.id (Store.claim 2 (Fixture.part 7 "alt.x" "bar 1/2" 0))
      ∧ row ∈ Store.binary_table (save foo_and_bar claimed_and_new).1
      ∧ BinaryRow.id row = bid ∧ BinaryRow.name row = name.
Proof.
  assert (Store.claim 2 (Fixture.part 7 "alt.x" "bar 1/2" 0)
          ∈ Store.part_table (save foo_and_bar claimed_and_new).1) as Hin.
  { assert (Store.part_table (save foo_and_bar claimed_and_new).1
            = [Part.mk 1 "alt.x" "foo 1/1" 0 "poster" "" (Some 1);
               Store.claim 2 (Fixture.part 7 "alt.x" "bar 1/2" 0);
               Fixture.part 8 "alt.x" "baz" 0]) as -> by (vm_compute; reflexivity).
    apply list_elem_of_further, list_elem_of_here. }
  assert (attached_id foo_and_bar
            (Part.id (Store.claim 2 (Fixture.part 7 "alt.x" "bar 1/2" 0)))) as Hatt.
  { eexists "bar", _, "1", _. split; [vm_compute; reflexivity|].
    split; [vm_compute; reflexivity|reflexivity]. }
  assert (well_named foo_and_bar) as Hwn
    by (change (map_Forall (λ name b, Binary.name b = name) foo_and_bar); decide_closed).
  split; [exact Hwn|]. split; [exact Hin|]. split; [exact Hatt|].
  exact (save_claims_attached foo_and_bar claimed_and_new _ Hwn Hin Hatt).
Defined.

Lemma save_resolves_every_name_witness :
  well_named foo_and_bar ∧ (save foo_and_bar claimed_and_new).2 = [].
Proof.
  assert (well_named foo_and_bar) as Hwn
    by (change (map_Forall (λ name b, Binary.name b = name) foo_and_bar); decide_closed).
  split; [exact Hwn|].
  exact (save_resolves_every_name foo_and_bar claimed_and_new Hwn).
Defined.

Lemma save_keeps_binaries_unique_witness :
  well_named foo_and_bar ∧ binaries_unique claimed_and_new
  ∧ inserted (save_steps foo_and_bar claimed_and_new) ≠ []
  ∧ updated (save_steps foo_and_bar claimed_and_new) ≠ []
  ∧ binaries_unique (save foo_and_bar claimed_and_new).1
  ∧ ∃ rows,
      Store.binary_table (save foo_and_bar claimed_and_new).1
      = Store.binary_table claimed_and_new ++ rows
      ∧ BinaryRow.name <$> rows
        = Binary.name <$> inserted (save_steps foo_and_bar claimed_and_new).
Proof.
  assert (well_named foo_and_bar) as Hwn
    by (change (map_Forall (λ name b, Binary.name b = name) foo_and_bar); decide_closed).
  assert (binaries_unique claimed_and_new) as Hunique.
  { split; [decide_closed|]. split; [decide_closed|].
    intros row ->%list_elem_of_singleton. simpl. lia. }
  assert (inserted (save_steps foo_and_bar claimed_and_new) ≠ []) as Hins
    by (intros Hnil; apply (f_equal length) in Hnil; vm_compute in Hnil; discriminate).
  assert (updated (save_steps foo_and_bar claimed_and_new) ≠ []) as Hupd
    by (intros Hnil; apply (f_equal length) in Hnil; vm_compute in Hnil; discriminate).
  split; [exact Hwn|]. split; [exact Hunique|]. split; [exact Hins|]. split; [exact Hupd|].
  exact (save_keeps_binaries_unique foo_and_bar claimed_and_new Hwn Hunique Hins Hupd).
Defined.

Example save_foo_and_bar :
  BinaryRow.name <$> Store.binary_table (save foo_and_bar claimed_and_new).1 = ["foo"; "bar"]
  ∧ Part.binary_id <$> Store.part_table (save foo_and_bar claimed_and_new).1
    = [Some 1; Some 2; None].
Proof. split; vm_compute; reflexivity. Qed.

(** ** A run on the table store *)

Section RunOnTables.
Variable regex_search : string → string → bool → search_result.

Lemma NoDup_fmap_eq {A B} (f : A → B) (l : list A) x y :
  NoDup (f <$> l) → x ∈ l → y ∈ l → f x = f y → x = y.
Proof.
  induction l as [|a l IH]; [by intros _ ?%elem_of_nil|].
  rewrite fmap_cons. intros [Hnot Hnd]%NoDup_cons.
  intros [->|Hx]%elem_of_cons [->|Hy]%elem_of_cons Hf; [done| | |by apply IH].
  - destruct Hnot. rewrite Hf. apply list_elem_of_fmap. by exists y.
  - destruct Hnot. rewrite <-Hf. apply list_elem_of_fmap. by exists x.
Qed.

Lemma stream_elem (st : Store.t) part :
  part ∈ unclaimed_parts (part_group_names st) st →
  part ∈ Store.part_table st ∧ Part.binary_id part = None.
Proof. simpl. unfold Store.unclaimed_in. by intros [[_ ?] ?]%list_elem_of_filter. Qed.

(** The state of a run before the last [save]. *)
Lemma process_before_save now (st : Store.t) (r : Run Store.t) :
  process regex_search now st = Ok r →
  ∃ s, r = finish s
       ∧ gathered_from now (load_rules st) (unclaimed_parts (part_group_names st) st) s
       ∧ db s = st
       ∧ db r = (save (binaries s) st).1.
Proof.
  unfold process. destruct (for_all _ _ _) as [s|] eqn:Hloop; [|done].
  simpl. intros [= <-]. exists s. split; [done|]. split.
  - exact (gathered_loop regex_search now (load_rules st) []
             (unclaimed_parts (part_group_names st) st) (start st) s
             (gathered_start now (load_rules st) st) Hloop).
  - assert (db s = st) as Hsame.
    { destruct (parts_loop regex_search now _ _ _ _ Hloop) as (Hsame & _); [done| |done].
      intros name b Hl. simpl in Hl. by rewrite lookup_empty in Hl. }
    split; [done|]. destruct (finish_fields s) as (-> & _). by rewrite Hsame.
Qed.

Lemma update_image us st p :
  p ∈ Store.part_table st →
  ∃ q, q ∈ Store.part_table (Store.update us st)
       ∧ (q = p ∨ ∃ bid, q = Store.claim bid p).
Proof.
  revert st p. induction us as [|u us IH]; intros st p Hin; [by exists p; split; [|left]|].
  unfold Store.update. simpl foldl. fold (Store.update us (Store.update_one st u)).
  destruct (decide (Part.id p = u.1)) as [Hid|Hid].
  - destruct (IH (Store.update_one st u) (Store.claim u.2 p)) as (q & Hq & Hshape).
    + simpl. apply list_elem_of_fmap. exists p. split; [|done].
      by rewrite bool_decide_eq_true_2.
    + exists q. split; [done|]. right.
      destruct Hshape as [->|[bid ->]]; [by exists u.2|by exists bid].
  - apply IH. simpl. apply list_elem_of_fmap. exists p. split; [|done].
    by rewrite bool_decide_eq_false_2.
Qed.

(** A run changes nothing of the parts but owners, and leaves the rows
    of the binaries table in place.  When the identifiers of the stored
    parts are distinct, a part that had an owner before the run is stored
    unchanged after it: an owner, once set, is neither cleared nor
    replaced. *)
Theorem run_keeps_owners now (st : Store.t) (r : Run Store.t) :
  NoDup (Part.id <$> Store.part_table st) →
  process regex_search now st = Ok r →
  unowned <$> Store.part_table (db r) = unowned <$> Store.part_table st
  ∧ Store.binary_table st `prefix_of` Store.binary_table (db r)
  ∧ ∀ p, p ∈ Store.part_table st → Part.binary_id p ≠ None →
      p ∈ Store.part_table (db r).
Proof.
  intros Hids (s & -> & Hg & _ & ->)%process_before_save.
  destruct Hg as (_ & _ & _ & _ & Hbin & _).
  destruct (save_owners (binaries s) st) as (_ & Hun & Hfree).
  split; [done|]. split.
  - rewrite stored_tables.
    destruct (update_tables (updated (save_steps (binaries s) st))
                (Store.insert (inserted (save_steps (binaries s) st)) st))
      as (_ & -> & _).
    destruct (insert_rows (inserted (save_steps (binaries s) st)) st)
      as (rows & -> & _).
    by exists rows.
  - intros p Hin Howned. apply Hfree; [|done].
    intros (name & b & current & part & Hl & Hp & Hid).
    destruct (Hbin name b Hl) as (_ & _ & _ & _ & Hparts).
    destruct (Hparts current part Hp) as [[Hin' Hnone]%stream_elem _].
    assert (part = p) as -> by by eapply (NoDup_fmap_eq Part.id).
    done.
Qed.

(** When the identifiers of the stored parts are distinct, every part
    that is attached to a binary of the accumulation at the end of a run
    is stored with an owner, and the owner is a row of the binaries table
    with the name of that binary. *)
Theorem run_claims_attached now (st : Store.t) (r : Run Store.t) :
  NoDup (Part.id <$> Store.part_table st) →
  process regex_search now st = Ok r →
  ∀ name b current part,
    binaries r !! name = Some b → Binary.parts b !! current = Some part →
    ∃ bid row,
      Store.claim bid part ∈ Store.part_table (db r)
      ∧ row ∈ Store.binary_table (db r)
      ∧ BinaryRow.id row = bid ∧ BinaryRow.name row = name.
Proof.
  intros Hids (s & -> & Hg & _ & Hdb)%process_before_save.
  destruct (finish_fields s) as (_ & _ & ->). rewrite Hdb.
  destruct Hg as (_ & _ & _ & _ & Hbin & _ & _ & Hsub).
  intros name b current part Hl Hp.
  destruct (Hbin name b Hl) as (_ & _ & _ & _ & Hparts).
  destruct (Hparts current part Hp) as [Hstream Hfiled].
  destruct (stream_elem _ _ Hstream) as [Hin Hnone].
  assert (well_named (binaries s)) as Hwn
    by (intros name0 b0 Hl0; by destruct (Hbin name0 b0 Hl0) as (_ & ? & _)).
  destruct (update_image (updated (save_steps (binaries s) st))
              (Store.insert (inserted (save_steps (binaries s) st)) st) part)
    as (q & Hq & Hshape).
  { by destruct (insert_tables (inserted (save_steps (binaries s) st)) st) as (-> & _). }
  rewrite <-stored_tables in Hq.
  assert (Part.id q = Part.id part) as Hqid by (by destruct Hshape as [->|[bid ->]]).
  destruct (save_claims (binaries s) st q Hwn Hq)
    as (bid & name' & b' & current' & part' & row & Hb & Hl' & Hp' & Hid' & Hrow & Hrid & Hrname).
  { exists name, b, current, part. by rewrite Hqid. }
  destruct (Hbin name' b' Hl') as (_ & _ & _ & _ & Hparts').
  destruct (Hparts' current' part' Hp') as [Hstream' Hfiled'].
  destruct (stream_elem _ _ Hstream') as [Hin' _].
  assert (part' = part) as -> by (eapply (NoDup_fmap_eq Part.id); [done..|congruence]).
  assert (NoDup ((λ f : string * string * Part.t, f.2) <$> filed s)) as Hnd.
  { eapply sublist_NoDup; [|exact Hsub]. simpl. unfold Store.unclaimed_in.
    eapply sublist_NoDup; [|apply sublist_filter]. by eapply NoDup_fmap_1. }
  assert ((name', current', part) = (name, current, part)) as [= -> ->]
    by (by eapply (NoDup_fmap_eq (λ f : string * string * Part.t, f.2))).
  exists bid, row. split; [|done].
  destruct Hshape as [->|[bid0 ->]]; [congruence|].
  simpl in Hb. by injection Hb as ->.
Qed.
End RunOnTables.

Lemma run_keeps_owners_witness :
  NoDup (Part.id <$> Store.part_table claimed_and_new)
  ∧ process Fixture.search 0 claimed_and_new = Ok claimed_and_new_run
  ∧ unowned <$> Store.part_table (db claimed_and_new_run)
    = unowned <$> Store.part_table claimed_and_new
  ∧ Store.binary_table claimed_and_new `prefix_of` Store.binary_table (db claimed_and_new_run)
  ∧ ∀ p, p ∈ Store.part_table claimed_and_new → Part.binary_id p ≠ None →
      p ∈ Store.part_table (db claimed_and_new_run).
Proof.
  assert (NoDup (Part.id <$> Store.part_table claimed_and_new)) as Hids by decide_closed.
  assert (process Fixture.search 0 claimed_and_new = Ok claimed_and_new_run) as Hrun
    by (vm_compute; reflexivity).
  split; [exact Hids|]. split; [exact Hrun|].
  exact (run_keeps_owners Fixture.search 0 claimed_and_new claimed_and_new_run Hids Hrun).
Defined.

Example claimed_and_new_owners :
  Part.binary_id <$> Store.part_table (db claimed_and_new_run) = [Some 1; Some 2; None].
Proof. vm_compute. reflexivity. Qed.

Lemma run_claims_attached_witness :
  NoDup (Part.id <$> Store.part_table Fixture.tidy_store)
  ∧ process Fixture.search 0 Fixture.tidy_store = Ok Fixture.tidy_run
  ∧ ∀ name b current part,
      binaries Fixture.tidy_run !! name = Some b → Binary.parts b !! current = Some part →
      ∃ bid row,
        Store.claim bid part ∈ Store.part_table (db Fixture.tidy_run)
        ∧ row ∈ Store.binary_table (db Fixture.tidy_run)
        ∧ BinaryRow.id row = bid ∧ BinaryRow.name row = name.
Proof.
  assert (NoDup (Part.id <$> Store.part_table Fixture.tidy_store)) as Hids by decide_closed.
  assert (process Fixture.search 0 Fixture.tidy_store = Ok Fixture.tidy_run) as Hrun
    by (vm_compute; reflexivity).
  split; [exact Hids|]. split; [exact Hrun|].
  exact (run_claims_attached Fixture.search 0 Fixture.tidy_store Fixture.tidy_run Hids Hrun).
Defined.

(** ** No rule is removed *)

Section NoRemoval.
Variable regex_search : string → string → bool → search_result.

Lemma rule_loop_log {S : Type} `{!Storage S} now part regs (s s' : Run S) :
  for_each (rule_body regex_search now part) regs s = Ok s' → log s' = log s.
Proof.
  revert s. induction regs as [|reg regs IH]; intros s; [by intros [= ->]|].
  rewrite for_each_cons.
  pose proof (rule_body_inv regex_search now part reg s) as Hinv.
  destruct (rule_body regex_search now part reg s) as [s1|s1|e] eqn:Hturn; [| |done].
  - subst s1. apply IH.
  - intros [= <-].
    by apply rule_body_break in Hturn
      as (r0 & name & current & b & _ & _ & _ & _ & _ & _ & _ & _ & ? & _).
Qed.

Lemma parts_loop_log {S : Type} `{!Storage S} now all_regex parts (s s' : Run S) :
  for_all (part_body regex_search now all_regex) parts s = Ok s' → count s = 0 →
  log s' = log s.
Proof.
  revert s. induction parts as [|part parts IH]; intros s; [by intros [= ->]|].
  simpl. destruct (part_body _ _ _ _ s) as [s1|] eqn:Hturn; [|done]. simpl.
  intros Hrest Hc.
  destruct (part_body_count regex_search now all_regex part s s1 Hturn Hc) as [Hc1 _].
  rewrite (IH s1 Hrest Hc1). unfold part_body in Hturn.
  destruct (for_each _ _ _) as [s0|] eqn:Hloop; [|done]. simpl in Hturn.
  pose proof (for_each_count regex_search now part _ _ _ Hloop) as [Hc0 _].
  simpl in Hc0. rewrite Hc0, Hc in Hturn. change (CHUNK_SIZE <=? 0) with false in Hturn.
  injection Hturn as <-. by apply rule_loop_log in Hloop.
Qed.

(** A run that ends has removed no rule and has logged nothing but its
    report: the rules in the store are the rules that were there, and
    neither the error of line 104 nor the error of line 54 is in the
    log.  It has not met a pattern on which the engine raises either:
    for a part of the stream that it did not file, every loaded rule is
    in the scope of the part and the engine answered for it. *)
Theorem run_removes_no_rule now (st : Store.t) (r : Run Store.t) :
  process regex_search now st = Ok r →
  log r = [InfoProcessed (total_processed r) (total_binaries r)]
  ∧ Store.regex_table (db r) = Store.regex_table st
  ∧ ∀ part reg,
      part ∈ unclaimed_parts (part_group_names st) st →
      (∀ name current, (name, current, part) ∉ filed r) →
      reg ∈ load_rules st →
      in_scope part reg = true ∧ searched regex_search part reg ≠ SearchRaises.
Proof.
  unfold process. destruct (for_all _ _ _) as [s|] eqn:Hloop; [|done].
  simpl. intros [= <-].
  destruct (parts_loop regex_search now _ _ _ _ Hloop)
    as (Hsame & _ & Hwn & _ & Hparts & _);
    [done|intros name b Hl; simpl in Hl; by rewrite lookup_empty in Hl|].
  pose proof (parts_loop_log now _ _ _ _ Hloop eq_refl) as Hlog.
  simpl in Hsame, Hlog.
  split; [|split].
  - unfold finish.
    pose proof (save_no_errors (binaries s) (db s) Hwn) as Herrs.
    destruct (save (binaries s) (db s)) as [db' errs]. simpl in *. subst errs.
    by rewrite Hlog.
  - destruct (finish_fields s) as (-> & _).
    destruct (save_owners (binaries s) (db s)) as (-> & _). by rewrite Hsame.
  - intros part reg Hpart Hnot Hreg.
    destruct (finish_fields s) as (_ & Hfiled & _). rewrite Hfiled in Hnot.
    destruct (Hparts part Hpart) as [(name & current & Hin)|Hpassed];
      [by destruct (Hnot name current)|].
    destruct (Hpassed reg Hreg) as [Hscope Hquiet]. split; [done|].
    intros Hraises. specialize (Hquiet (start st)).
    by rewrite rule_body_rule, Hraises in Hquiet.
Qed.
End NoRemoval.

Lemma run_removes_no_rule_witness :
  process Fixture.search 0 Fixture.tidy_store = Ok Fixture.tidy_run
  ∧ log Fixture.tidy_run
    = [InfoProcessed (total_processed Fixture.tidy_run) (total_binaries Fixture.tidy_run)]
  ∧ Store.regex_table (db Fixture.tidy_run) = Store.regex_table Fixture.tidy_store
  ∧ ∀ part reg,
      part ∈ unclaimed_parts (part_group_names Fixture.tidy_store) Fixture.tidy_store →
      (∀ name current, (name, current, part) ∉ filed Fixture.tidy_run) →
      reg ∈ load_rules Fixture.tidy_store →
      in_scope part reg = true ∧ searched Fixture.search part reg ≠ SearchRaises.
Proof.
  assert (process Fixture.search 0 Fixture.tidy_store = Ok Fixture.tidy_run) as Hrun
    by (vm_compute; reflexivity).
  split; [exact Hrun|].
  exact (run_removes_no_rule Fixture.search 0 Fixture.tidy_store Fixture.tidy_run Hrun).
Defined.
